(** * Session and authorization lifecycle of the hospital records front end

    A shallow embedding of [src/frontend/auth.js], of the role projector and
    session gate of [src/frontend/scripts.js], and of the submit handler of the
    registration page, together with the parts of the browser platform these
    functions call: [atob], [JSON.parse], [JSON.stringify], the number and
    string conversions of ECMAScript, [localStorage] with its quota, [fetch],
    and the run-to-suspension discipline of [async] functions.

    Conventions of the model.
    - A JavaScript string is a [string]: a sequence of code units below 256.
      A JSON escape that denotes a code unit above 255 leaves the model
      ([Unmodelled]); nothing is proved about such runs.
    - A JavaScript number is an IEEE 754 binary64 value, [spec_float] at
      precision 53.
    - Property reads are reads of own data properties; the names the sources
      read ([exp], [role], [access_token], ...) are not members of any
      built-in prototype.
    - [console.error] is not modelled: it has no effect on the store, the
      network or the page.
    - [JSON_parse] keeps the members of an object in the order of the text,
      where JavaScript lists the integer-like keys first, in ascending
      order. No statement below reads the order of the members of a parsed
      object: they are read by name. *)

From Stdlib Require Import ZArith NArith String Ascii List Bool Lia.
From Stdlib Require Import DecimalString.
From Stdlib Require Import Floats.SpecFloat.
From stdpp Require Import gmap strings list.

Set Warnings "-register-all".

(* ===================================================================== *)
(** * Part I. The platform *)
(* ===================================================================== *)

(** ** Characters and strings *)

Definition code (c : ascii) : N := N_of_ascii c.

Definition in_range (lo hi : N) (c : ascii) : bool :=
  ((lo <=? code c) && (code c <=? hi))%N.

Definition is_digit (c : ascii) : bool := in_range 48 57 c.
Definition is_upper (c : ascii) : bool := in_range 65 90 c.
Definition is_lower (c : ascii) : bool := in_range 97 122 c.

(** [WhiteSpace] and [LineTerminator] of ECMAScript, below 256: what
    [String.prototype.trim] and the string-to-number conversion strip. *)
Definition is_js_space (c : ascii) : bool :=
  in_range 9 13 c || (code c =? 32)%N || (code c =? 160)%N.

(** Line terminators (what [.] of a regular expression does not match). *)
Definition is_line_terminator (c : ascii) : bool :=
  (code c =? 10)%N || (code c =? 13)%N.

Fixpoint str_forallb (p : ascii -> bool) (s : string) : bool :=
  match s with
  | EmptyString => true
  | String c r => p c && str_forallb p r
  end.

Fixpoint str_existsb (p : ascii -> bool) (s : string) : bool :=
  match s with
  | EmptyString => false
  | String c r => p c || str_existsb p r
  end.

Fixpoint str_filter (p : ascii -> bool) (s : string) : string :=
  match s with
  | EmptyString => EmptyString
  | String c r => if p c then String c (str_filter p r) else str_filter p r
  end.

Fixpoint str_drop_while (p : ascii -> bool) (s : string) : string :=
  match s with
  | EmptyString => EmptyString
  | String c r => if p c then str_drop_while p r else s
  end.

Fixpoint str_take_while (p : ascii -> bool) (s : string) : string :=
  match s with
  | EmptyString => EmptyString
  | String c r => if p c then String c (str_take_while p r) else EmptyString
  end.

Fixpoint str_rev_onto (s acc : string) : string :=
  match s with
  | EmptyString => acc
  | String c r => str_rev_onto r (String c acc)
  end.

Definition str_rev (s : string) : string := str_rev_onto s EmptyString.

Fixpoint str_repeat (c : ascii) (n : nat) : string :=
  match n with
  | O => EmptyString
  | S k => String c (str_repeat c k)
  end.

Fixpoint str_take (n : nat) (s : string) : string :=
  match n, s with
  | S k, String c r => String c (str_take k r)
  | _, _ => EmptyString
  end.

Fixpoint str_drop (n : nat) (s : string) : string :=
  match n, s with
  | S k, String _ r => str_drop k r
  | _, _ => s
  end.

(** [s.trim()] *)
Definition trim (s : string) : string :=
  str_rev (str_drop_while is_js_space (str_rev (str_drop_while is_js_space s))).

(** [s.split(sep)] for a separator of one character: never empty. *)
Fixpoint split (sep : ascii) (s : string) : list string :=
  match s with
  | EmptyString => [EmptyString]
  | String c r =>
      if Ascii.eqb c sep then EmptyString :: split sep r
      else match split sep r with
           | w :: ws => String c w :: ws
           | [] => [String c EmptyString]
           end
  end.

(** [s.startsWith(p)], returning the rest. *)
Fixpoint strip_prefix (p s : string) : option string :=
  match p, s with
  | EmptyString, _ => Some s
  | String a p', String b s' => if Ascii.eqb a b then strip_prefix p' s' else None
  | String _ _, EmptyString => None
  end.

(** Decimal text of a natural number. *)
Definition dec_of_N (n : N) : string := NilZero.string_of_uint (N.to_uint n).

(** ** Numbers: IEEE 754 binary64 *)

Definition number : Type := spec_float.

Definition NaN : number := S754_nan.
Definition num_zero (neg : bool) : number := S754_zero neg.
Definition num_inf (neg : bool) : number := S754_infinity neg.

(** [x * y] *)
Definition num_mul (x y : number) : number := SFmul 53 1024 x y.
(** [x <= y] and [x < y]; [x >= y] is [num_le y x]. Any comparison with
    [NaN] is false. *)
Definition num_le (x y : number) : bool := SFleb x y.
Definition num_lt (x y : number) : bool := SFltb x y.

(** The binary64 nearest to [p / d] (ties to even), for [0 < p] and [0 < d]:
    [p] is scaled until the quotient has more than 53 bits, and the remainder
    gives the position of the discarded part. *)
Definition num_of_ratio (neg : bool) (p d : Z) : number :=
  let k := Z.max 0 (60 + Z.log2 d - Z.log2 p) in
  let n := Z.shiftl p k in
  let q := (n / d)%Z in
  let r := (n mod d)%Z in
  let loc := if (r =? 0)%Z then loc_Exact else loc_Inexact (2 * r ?= d)%Z in
  binary_round_aux 53 1024 neg q (- k) loc.

(** The binary64 nearest to [m * 10 ^ e10], for [0 <= m]. Literals far
    outside the binary64 range are settled without computing the power. *)
Definition num_of_decimal (neg : bool) (m e10 : Z) : number :=
  if (m =? 0)%Z then num_zero neg
  else if (310 <? e10)%Z then num_inf neg
  else if (e10 + ((Z.log2 m + 1) / 3 + 1) <? -330)%Z then num_zero neg
  else if (0 <=? e10)%Z then num_of_ratio neg (m * 10 ^ e10) 1
  else num_of_ratio neg m (10 ^ (- e10)).

(** An integer as a number ([Date.now()] returns one). *)
Definition num_of_Z (n : Z) : number :=
  match n with
  | Z0 => num_zero false
  | Zpos _ => num_of_ratio false n 1
  | Zneg _ => num_of_ratio true (- n) 1
  end.

(** The exact value of a finite positive number as a fraction. *)
Definition ratio_of (m : positive) (e : Z) : Z * Z :=
  if (0 <=? e)%Z then (Zpos m * 2 ^ e, 1)%Z else (Zpos m, 2 ^ (- e))%Z.

(** [10 ^ (n - 1) <= p / d] *)
Definition reaches_pow10 (p d n : Z) : bool :=
  if (1 <=? n)%Z then (d * 10 ^ (n - 1) <=? p)%Z else (d <=? p * 10 ^ (1 - n))%Z.

Fixpoint find_dec_exp (fuel : nat) (p d n : Z) : Z :=
  match fuel with
  | O => n
  | S f => if reaches_pow10 p d n then n else find_dec_exp f p d (n - 1)
  end.

(** The [n] with [10 ^ (n - 1) <= p / d < 10 ^ n]. *)
Definition dec_exp (p d : Z) : Z :=
  find_dec_exp 12 p d ((Z.log2 p - Z.log2 d) * 30103 / 100000 + 4).

(** The candidates with [k] digits for the shortest decimal that reads back
    as [x = p / d]: the integers around [x / 10 ^ (n - k)], nearest first. *)
Definition dec_candidates (p d n k : Z) : list Z :=
  let '(a, b) := if (0 <=? n - k)%Z then (p, d * 10 ^ (n - k))%Z
                 else (p * 10 ^ (k - n), d)%Z in
  let lo := (a / b)%Z in
  let r := (a mod b)%Z in
  match (2 * r ?= b)%Z with
  | Lt => [lo; lo + 1]%Z
  | Gt => [lo + 1; lo]%Z
  | Eq => if Z.even lo then [lo; lo + 1]%Z else [lo + 1; lo]%Z
  end.

Definition reads_back (x : number) (s e10 : Z) : bool :=
  match SFcompare (num_of_decimal false s e10) x with
  | Some Eq => true
  | _ => false
  end.

(** The digits [s], their count [k] and the exponent [n] of [Number::toString]:
    [k] as small as possible with [s * 10 ^ (n - k)] reading back as [x]. *)
Fixpoint shortest_digits (fuel : nat) (x : number) (p d n k : Z) : Z * Z * Z :=
  match find (fun s => reads_back x s (n - k)) (dec_candidates p d n k) with
  | Some s => if (s =? 10 ^ k)%Z then (10 ^ (k - 1), k, n + 1)%Z else (s, k, n)
  | None =>
      match fuel with
      | O => (hd 0%Z (dec_candidates p d n k), k, n)
      | S f => shortest_digits f x p d n (k + 1)
      end
  end.

Definition dec_of_Z (z : Z) : string := dec_of_N (Z.to_N z).
Definition zeros (n : Z) : string := str_repeat "0"%char (Z.to_nat n).

(** [Number::toString(x)] in radix 10. *)
Definition num_to_string (x : number) : string :=
  match x with
  | S754_nan => "NaN"
  | S754_zero _ => "0"
  | S754_infinity neg => if neg then "-Infinity" else "Infinity"
  | S754_finite neg m e =>
      let '(p, d) := ratio_of m e in
      let '(s, k, n) := shortest_digits 17 (S754_finite false m e) p d (dec_exp p d) 1 in
      let ds := dec_of_Z s in
      let body :=
        if ((k <=? n) && (n <=? 21))%Z then ds +:+ zeros (n - k)
        else if ((0 <? n) && (n <=? 21))%Z then
          str_take (Z.to_nat n) ds +:+ "." +:+ str_drop (Z.to_nat n) ds
        else if ((-6 <? n) && (n <=? 0))%Z then "0." +:+ zeros (- n) +:+ ds
        else
          let ex := (if (0 <=? n - 1)%Z then "+" else "-") +:+ dec_of_Z (Z.abs (n - 1)) in
          if (k =? 1)%Z then ds +:+ "e" +:+ ex
          else str_take 1 ds +:+ "." +:+ str_drop 1 ds +:+ "e" +:+ ex in
      if neg then "-" +:+ body else body
  end.

(** *** Reading numerals *)

Definition digit_val (c : ascii) : Z := (Z.of_N (code c) - 48)%Z.

(** Value of a run of decimal digits, continuing from [acc]. *)
Fixpoint digits_val (s : string) (acc : Z) : Z :=
  match s with
  | EmptyString => acc
  | String c r => digits_val r (10 * acc + digit_val c)%Z
  end.

Definition hex_val (c : ascii) : option Z :=
  if is_digit c then Some (digit_val c)
  else if in_range 97 102 c then Some (Z.of_N (code c) - 87)%Z
  else if in_range 65 70 c then Some (Z.of_N (code c) - 55)%Z
  else None.

(** Value of a non-empty run of digits in radix [b], [None] on another
    character. *)
Fixpoint radix_val (b : Z) (s : string) (acc : Z) : option Z :=
  match s with
  | EmptyString => Some acc
  | String c r =>
      match hex_val c with
      | Some v => if (v <? b)%Z then radix_val b r (b * acc + v)%Z else None
      | None => None
      end
  end.

(** An exponent part [e], [e+] or [e-] followed by digits, at the end of the
    text: its value. An empty text is exponent 0. *)
Definition exponent_part (s : string) : option Z :=
  match s with
  | EmptyString => Some 0%Z
  | String c r =>
      if Ascii.eqb c "e" || Ascii.eqb c "E" then
        let '(neg, ds) :=
          match r with
          | String "+" r' => (false, r')
          | String "-" r' => (true, r')
          | _ => (false, r)
          end in
        match ds with
        | EmptyString => None
        | _ => if str_forallb is_digit ds
               then Some (if neg then - digits_val ds 0 else digits_val ds 0)%Z
               else None
        end
      else None
  end.

(** [StrUnsignedDecimalLiteral] without [Infinity]: digits, an optional
    fraction, an optional exponent; at least one digit before the exponent. *)
Definition unsigned_decimal (neg : bool) (s : string) : number :=
  let ip := str_take_while is_digit s in
  let r1 := str_drop (String.length ip) s in
  let '(fp, r2) :=
    match r1 with
    | String "." r =>
        let f := str_take_while is_digit r in (f, str_drop (String.length f) r)
    | _ => (EmptyString, r1)
    end in
  match ip, fp, r1 with
  | EmptyString, EmptyString, _ => NaN
  | _, _, _ =>
      match exponent_part r2 with
      | Some ex =>
          num_of_decimal neg (digits_val (ip +:+ fp) 0) (ex - Z.of_nat (String.length fp))%Z
      | None => NaN
      end
  end.

(** [StringToNumber]: surrounding white space is dropped; the empty text is
    [+0]; a text that is not a numeral is [NaN]. *)
Definition string_to_number (s : string) : number :=
  let t := trim s in
  match t with
  | EmptyString => num_zero false
  | String "0" (String x r) =>
      let radix (b : Z) :=
        match r with
        | EmptyString => NaN
        | _ => match radix_val b r 0 with
               | Some v => num_of_Z v
               | None => NaN
               end
        end in
      if Ascii.eqb x "x" || Ascii.eqb x "X" then radix 16%Z
      else if Ascii.eqb x "o" || Ascii.eqb x "O" then radix 8%Z
      else if Ascii.eqb x "b" || Ascii.eqb x "B" then radix 2%Z
      else unsigned_decimal false t
  | _ =>
      let '(neg, u) :=
        match t with
        | String "+" r => (false, r)
        | String "-" r => (true, r)
        | _ => (false, t)
        end in
      if String.eqb u "Infinity" then num_inf neg else unsigned_decimal neg u
  end.

(** ** Values *)

(** The values the sources handle: what [JSON.parse] and [response.json()]
    produce, and the option objects passed to [fetch]. An object is the list
    of its own properties in enumeration order. *)
Inductive Value : Type :=
| VUndefined
| VNull
| VBool (b : bool)
| VNum (x : number)
| VStr (s : string)
| VArr (items : list Value)
| VObj (props : list (string * Value)).

(** Exceptions the modelled code can raise or observe. *)
Inductive Exn : Type :=
| TypeError            (* property read on [null]/[undefined]; a rejected [fetch] *)
| SyntaxError          (* [JSON.parse], [response.json()] *)
| InvalidCharacterError (* [atob] *)
| QuotaExceededError   (* [localStorage.setItem] *)
| Error (message : string).

(** Own property lookup in a property list. *)
Fixpoint lookup_prop (key : string) (props : list (string * Value)) : option Value :=
  match props with
  | [] => None
  | (k, v) :: r => if String.eqb k key then Some v else lookup_prop key r
  end.

(** [obj[key] = v] on a property list: an existing property keeps its place. *)
Fixpoint set_prop (key : string) (v : Value) (props : list (string * Value))
  : list (string * Value) :=
  match props with
  | [] => [(key, v)]
  | (k, w) :: r => if String.eqb k key then (k, v) :: r else (k, w) :: set_prop key v r
  end.

(** [v.key]: a [TypeError] on [null] and [undefined], the own property of an
    object, [undefined] otherwise. *)
Definition get_prop (v : Value) (key : string) : Exn + Value :=
  match v with
  | VUndefined | VNull => inl TypeError
  | VObj props => inr (default VUndefined (lookup_prop key props))
  | _ => inr VUndefined
  end.

(** [ToBoolean] *)
Definition truthy (v : Value) : bool :=
  match v with
  | VUndefined | VNull => false
  | VBool b => b
  | VNum (S754_zero _) | VNum S754_nan => false
  | VNum _ => true
  | VStr EmptyString => false
  | VStr _ => true
  | VArr _ | VObj _ => true
  end.

Fixpoint join (sep : string) (l : list string) : string :=
  match l with
  | [] => EmptyString
  | [s] => s
  | s :: r => s +:+ sep +:+ join sep r
  end.

(** [ToString]. An array is its elements joined by commas, [null] and
    [undefined] elements being empty. *)
Fixpoint to_string (v : Value) : string :=
  match v with
  | VUndefined => "undefined"
  | VNull => "null"
  | VBool b => if b then "true" else "false"
  | VNum x => num_to_string x
  | VStr s => s
  | VArr items =>
      join "," (map (fun i => match i with
                              | VUndefined | VNull => EmptyString
                              | _ => to_string i
                              end) items)
  | VObj _ => "[object Object]"
  end.

(** [ToNumber]. Arrays and objects convert through their string. *)
Definition to_number (v : Value) : number :=
  match v with
  | VUndefined => NaN
  | VNull => num_zero false
  | VBool b => if b then num_of_Z 1 else num_zero false
  | VNum x => x
  | VStr s => string_to_number s
  | VArr _ | VObj _ => string_to_number (to_string v)
  end.

(** [a === b] where [b] is a string. *)
Definition strict_eq_str (a : Value) (b : string) : bool :=
  match a with
  | VStr s => String.eqb s b
  | _ => false
  end.

(** [arr.includes(v)] for an array of strings. *)
Definition includes (arr : list string) (v : Value) : bool :=
  existsb (strict_eq_str v) arr.

(** ** [atob]: forgiving base64 *)

Definition is_ascii_whitespace (c : ascii) : bool :=
  (code c =? 9)%N || (code c =? 10)%N || (code c =? 12)%N || (code c =? 13)%N
  || (code c =? 32)%N.

(** The standard alphabet: [A-Z a-z 0-9 + /]. The URL-safe characters [-]
    and [_] are not part of it. *)
Definition b64_val (c : ascii) : option N :=
  if is_upper c then Some (code c - 65)%N
  else if is_lower c then Some (code c - 71)%N
  else if is_digit c then Some (code c + 4)%N
  else if (code c =? 43)%N then Some 62%N
  else if (code c =? 47)%N then Some 63%N
  else None.

Fixpoint b64_vals (s : string) : option (list N) :=
  match s with
  | EmptyString => Some []
  | String c r =>
      match b64_val c, b64_vals r with
      | Some v, Some vs => Some (v :: vs)
      | _, _ => None
      end
  end.

Definition byte (n : N) : ascii := ascii_of_N (n mod 256).

Fixpoint b64_bytes (l : list N) : string :=
  match l with
  | a :: b :: c :: d :: r =>
      let w := (a * 262144 + b * 4096 + c * 64 + d)%N in
      String (byte (w / 65536)) (String (byte (w / 256)) (String (byte w) (b64_bytes r)))
  | [a; b; c] =>
      let w := (a * 4096 + b * 64 + c)%N in
      String (byte (w / 1024)) (String (byte (w / 4)) EmptyString)
  | [a; b] => String (byte ((a * 64 + b) / 16)) EmptyString
  | _ => EmptyString
  end.

Definition strip_padding (s : string) : string :=
  if (String.length s mod 4 =? 0)%nat then
    match str_rev s with
    | String "=" (String "=" r) => str_rev r
    | String "=" r => str_rev r
    | _ => s
    end
  else s.

(** [atob(data)]: [None] is the [InvalidCharacterError]. *)
Definition atob (data : string) : option string :=
  let d := strip_padding (str_filter (fun c => negb (is_ascii_whitespace c)) data) in
  if (String.length d mod 4 =? 1)%nat then None
  else option_map b64_bytes (b64_vals d).

(** ** [JSON.parse] *)

Definition dquote : ascii := ascii_of_N 34.
Definition backslash : ascii := ascii_of_N 92.

(** [s] between double quotes. *)
Definition quoted (s : string) : string := String dquote (s +:+ String dquote EmptyString).

(** Outcome of reading a prefix of a text: the value read and the rest, a
    [SyntaxError], or a text whose value lies outside the model. *)
Inductive Parsed (T : Type) : Type :=
| Got (v : T) (rest : string)
| Bad
| Beyond.
Arguments Got {T} v rest.
Arguments Bad {T}.
Arguments Beyond {T}.

Definition is_json_space (c : ascii) : bool :=
  (code c =? 32)%N || (code c =? 9)%N || (code c =? 10)%N || (code c =? 13)%N.

Definition skip_ws (s : string) : string := str_drop_while is_json_space s.

Definition unescape (c : ascii) : option ascii :=
  if Ascii.eqb c dquote then Some dquote
  else if Ascii.eqb c backslash then Some backslash
  else if Ascii.eqb c "/" then Some "/"%char
  else if Ascii.eqb c "b" then Some (ascii_of_N 8)
  else if Ascii.eqb c "f" then Some (ascii_of_N 12)
  else if Ascii.eqb c "n" then Some (ascii_of_N 10)
  else if Ascii.eqb c "r" then Some (ascii_of_N 13)
  else if Ascii.eqb c "t" then Some (ascii_of_N 9)
  else None.

Definition map_got {T} (f : T -> T) (p : Parsed T) : Parsed T :=
  match p with
  | Got v r => Got (f v) r
  | _ => p
  end.

(** The characters of a string literal, after its opening quote. *)
Fixpoint parse_chars (s : string) : Parsed string :=
  match s with
  | EmptyString => Bad
  | String c r =>
      if Ascii.eqb c dquote then Got EmptyString r
      else if Ascii.eqb c backslash then
        match r with
        | String "u" (String h1 (String h2 (String h3 (String h4 r')))) =>
            match hex_val h1, hex_val h2, hex_val h3, hex_val h4 with
            | Some a, Some b, Some c', Some d =>
                if ((a =? 0) && (b =? 0))%Z
                then map_got (String (ascii_of_N (Z.to_N (16 * c' + d)))) (parse_chars r')
                else Beyond
            | _, _, _, _ => Bad
            end
        | String e r' =>
            match unescape e with
            | Some c' => map_got (String c') (parse_chars r')
            | None => Bad
            end
        | EmptyString => Bad
        end
      else if (code c <? 32)%N then Bad
      else map_got (String c) (parse_chars r)
  end.

(** A number literal: an optional minus, an integer part without leading
    zero, an optional fraction and an optional exponent. *)
Definition parse_number (s : string) : Parsed number :=
  let '(neg, s1) := match s with String "-" r => (true, r) | _ => (false, s) end in
  let ip := str_take_while is_digit s1 in
  let s2 := str_drop (String.length ip) s1 in
  let int_ok := match ip with
                | EmptyString => false
                | String "0" (String _ _) => false
                | _ => true
                end in
  if negb int_ok then Bad else
  let frac :=
    match s2 with
    | String "." r =>
        let f := str_take_while is_digit r in
        match f with
        | EmptyString => None
        | _ => Some (f, str_drop (String.length f) r)
        end
    | _ => Some (EmptyString, s2)
    end in
  match frac with
  | None => Bad
  | Some (fp, s3) =>
      let ex :=
        match s3 with
        | String c r =>
            if Ascii.eqb c "e" || Ascii.eqb c "E" then
              let '(eneg, r1) :=
                match r with
                | String "+" r' => (false, r')
                | String "-" r' => (true, r')
                | _ => (false, r)
                end in
              let ds := str_take_while is_digit r1 in
              match ds with
              | EmptyString => None
              | _ => Some ((if eneg then - digits_val ds 0 else digits_val ds 0)%Z,
                           str_drop (String.length ds) r1)
              end
            else Some (0%Z, s3)
        | EmptyString => Some (0%Z, s3)
        end in
      match ex with
      | None => Bad
      | Some (e, rest) =>
          Got (num_of_decimal neg (digits_val (ip +:+ fp) 0)
                 (e - Z.of_nat (String.length fp))%Z) rest
      end
  end.

Definition parse_literal (word : string) (v : Value) (s : string) : Parsed Value :=
  match strip_prefix word s with
  | Some r => Got v r
  | None => Bad
  end.

(** A value, the members of an object after its first key's position, and
    the elements of an array; [fuel] bounds the nesting and the length. A
    repeated key keeps its last value. *)
Fixpoint parse_value (fuel : nat) (s : string) : Parsed Value :=
  match fuel with
  | O => Beyond
  | S f =>
      match skip_ws s with
      | String "{" r =>
          match skip_ws r with
          | String "}" r' => Got (VObj []) r'
          | _ => parse_members f r []
          end
      | String "[" r =>
          match skip_ws r with
          | String "]" r' => Got (VArr []) r'
          | _ => parse_elements f r []
          end
      | String "t" _ as t => parse_literal "true" (VBool true) t
      | String "f" _ as t => parse_literal "false" (VBool false) t
      | String "n" _ as t => parse_literal "null" VNull t
      | String c r as t =>
          if Ascii.eqb c dquote then
            match parse_chars r with
            | Got str r' => Got (VStr str) r'
            | Bad => Bad
            | Beyond => Beyond
            end
          else
            match parse_number t with
            | Got x r' => Got (VNum x) r'
            | Bad => Bad
            | Beyond => Beyond
            end
      | EmptyString => Bad
      end
  end
with parse_members (fuel : nat) (s : string) (acc : list (string * Value)) : Parsed Value :=
  match fuel with
  | O => Beyond
  | S f =>
      match skip_ws s with
      | String c r =>
          if Ascii.eqb c dquote then
            match parse_chars r with
            | Got key r1 =>
                match skip_ws r1 with
                | String ":" r2 =>
                    match parse_value f r2 with
                    | Got v r3 =>
                        match skip_ws r3 with
                        | String "," r4 => parse_members f r4 (set_prop key v acc)
                        | String "}" r4 => Got (VObj (set_prop key v acc)) r4
                        | _ => Bad
                        end
                    | other => other
                    end
                | _ => Bad
                end
            | Bad => Bad
            | Beyond => Beyond
            end
          else Bad
      | EmptyString => Bad
      end
  end
with parse_elements (fuel : nat) (s : string) (acc : list Value) : Parsed Value :=
  match fuel with
  | O => Beyond
  | S f =>
      match parse_value f s with
      | Got v r =>
          match skip_ws r with
          | String "," r' => parse_elements f r' (acc ++ [v])
          | String "]" r' => Got (VArr (acc ++ [v])) r'
          | _ => Bad
          end
      | other => other
      end
  end.

(** [JSON.parse(text)] *)
Definition JSON_parse (text : string) : Parsed Value :=
  match parse_value (2 * String.length text + 2) text with
  | Got v r => match skip_ws r with
               | EmptyString => Got v EmptyString
               | _ => Bad
               end
  | other => other
  end.

(** ** [JSON.stringify] *)

Definition hex_digit (n : N) : ascii :=
  if (n <? 10)%N then ascii_of_N (48 + n) else ascii_of_N (87 + n).

Definition quote_char (c : ascii) : string :=
  let n := code c in
  let esc (e : ascii) := String backslash (String e EmptyString) in
  if (n =? 34)%N then esc dquote
  else if (n =? 92)%N then esc backslash
  else if (n =? 8)%N then esc "b"%char
  else if (n =? 12)%N then esc "f"%char
  else if (n =? 10)%N then esc "n"%char
  else if (n =? 13)%N then esc "r"%char
  else if (n =? 9)%N then esc "t"%char
  else if (n <? 32)%N then
    String backslash ("u00" +:+ String (hex_digit (n / 16)) (String (hex_digit (n mod 16)) EmptyString))
  else String c EmptyString.

Fixpoint quote_chars (s : string) : string :=
  match s with
  | EmptyString => EmptyString
  | String c r => quote_char c +:+ quote_chars r
  end.

(** [QuoteJSONString] *)
Definition quote_json (s : string) : string := quoted (quote_chars s).

(** [JSON.stringify(v)]; [None] is [undefined]. A property whose value is
    [undefined] is left out; an [undefined] array element and a number that
    is not finite are written [null]. *)
Fixpoint JSON_stringify (v : Value) : option string :=
  match v with
  | VUndefined => None
  | VNull => Some "null"
  | VBool b => Some (if b then "true" else "false")
  | VNum (S754_nan) | VNum (S754_infinity _) => Some "null"
  | VNum x => Some (num_to_string x)
  | VStr s => Some (quote_json s)
  | VArr items =>
      Some ("[" +:+ join "," (map (fun i => default "null" (JSON_stringify i)) items) +:+ "]")
  | VObj props =>
      let fix members (ps : list (string * Value)) : list string :=
        match ps with
        | [] => []
        | (k, w) :: r =>
            match JSON_stringify w with
            | Some t => (quote_json k +:+ ":" +:+ t) :: members r
            | None => members r
            end
        end in
      Some ("{" +:+ join "," (members props) +:+ "}")
  end.

(** ** [localStorage] *)

(** The store of one origin: its items and the room the browser grants it,
    counted in characters of keys and values. *)
Record Storage : Type := { items : gmap string string; quota : nat }.

Definition usage (m : gmap string string) : nat :=
  map_fold (fun k v n => String.length k + String.length v + n) 0 m.

Definition storage_getItem (st : Storage) (key : string) : option string :=
  items st !! key.

(** [setItem] raises [QuotaExceededError] when the new value does not fit,
    and then leaves the store as it was. *)
Definition storage_setItem (st : Storage) (key value : string) : Exn + Storage :=
  let m := <[key := value]> (items st) in
  if (usage m <=? quota st)%nat then inr {| items := m; quota := quota st |}
  else inl QuotaExceededError.

Definition storage_removeItem (st : Storage) (key : string) : Storage :=
  {| items := delete key (items st); quota := quota st |}.

Definition empty_storage (q : nat) : Storage := {| items := ∅; quota := q |}.

(** ** The network and the page *)

(** A response: its status and what [response.json()] resolves to ([None]
    when it rejects). *)
Record Response : Type := { status : Z; body : option Value }.

Definition ok (r : Response) : bool := ((200 <=? status r) && (status r <=? 299))%Z.

(** How a [fetch] settles: with a response, or rejected (network failure). *)
Inductive FetchOutcome : Type :=
| Responded (r : Response)
| Failed.

(** What a run leaves behind besides the store. *)
Inductive Event : Type :=
| Requested (url : string) (options : Value)   (* [fetch(url, options)] was issued *)
| Alerted (kind message : string)              (* [showAlert(kind, message)] *)
| Navigated (href : string)                    (* [window.location.href = href] *)
| Scheduled (delay : Z) (href : string).       (* [setTimeout] of a navigation *)

(** ** Asynchronous computations *)

(** The body of a function, synchronous or [async], as a tree of its effects.
    [Fetch] and [AwaitJson] are the points where an [async] function is
    suspended; [Spawn t k] calls the [async] function [t] without awaiting
    it: [t] runs up to its first suspension, then [k] goes on. *)
Inductive Async (A : Type) : Type :=
| Return (a : A)
| Throw (e : Exn)
| Unmodelled
| GetItem (key : string) (k : option string -> Async A)
| SetItem (key value : string) (k : option Exn -> Async A)
| RemoveItem (key : string) (k : Async A)
| DateNow (k : Z -> Async A)
| Emit (e : Event) (k : Async A)
| Fetch (url : string) (options : Value) (k : FetchOutcome -> Async A)
| AwaitJson (r : Response) (k : option Value -> Async A)
| Spawn (t : Async bool) (k : Async A).
Arguments Return {A} a.
Arguments Throw {A} e.
Arguments Unmodelled {A}.
Arguments GetItem {A} key k.
Arguments SetItem {A} key value k.
Arguments RemoveItem {A} key k.
Arguments DateNow {A} k.
Arguments Emit {A} e k.
Arguments Fetch {A} url options k.
Arguments AwaitJson {A} r k.
Arguments Spawn {A} t k.

Fixpoint bind {A B : Type} (t : Async A) (f : A -> Async B) : Async B :=
  match t with
  | Return a => f a
  | Throw e => Throw e
  | Unmodelled => Unmodelled
  | GetItem key k => GetItem key (fun x => bind (k x) f)
  | SetItem key v k => SetItem key v (fun x => bind (k x) f)
  | RemoveItem key k => RemoveItem key (bind k f)
  | DateNow k => DateNow (fun x => bind (k x) f)
  | Emit e k => Emit e (bind k f)
  | Fetch url o k => Fetch url o (fun x => bind (k x) f)
  | AwaitJson r k => AwaitJson r (fun x => bind (k x) f)
  | Spawn t' k => Spawn t' (bind k f)
  end.

(** [try { t } catch (error) { h error }] *)
Fixpoint try_catch {A : Type} (t : Async A) (h : Exn -> Async A) : Async A :=
  match t with
  | Return a => Return a
  | Throw e => h e
  | Unmodelled => Unmodelled
  | GetItem key k => GetItem key (fun x => try_catch (k x) h)
  | SetItem key v k => SetItem key v (fun x => try_catch (k x) h)
  | RemoveItem key k => RemoveItem key (try_catch k h)
  | DateNow k => DateNow (fun x => try_catch (k x) h)
  | Emit e k => Emit e (try_catch k h)
  | Fetch url o k => Fetch url o (fun x => try_catch (k x) h)
  | AwaitJson r k => AwaitJson r (fun x => try_catch (k x) h)
  | Spawn t' k => Spawn t' (try_catch k h)
  end.

Notation "x <- t ;; k" := (bind t (fun x => k))
  (at level 100, t at next level, right associativity).
Notation "t ;; k" := (bind t (fun _ => k))
  (at level 100, right associativity).
Notation "'try' t 'catch' e => h" := (try_catch t (fun e => h))
  (at level 100, t at level 200, e name, h at level 200).

(** The platform calls, as computations. *)
Definition localStorage_getItem (key : string) : Async (option string) :=
  GetItem key Return.

(** [localStorage.setItem(key, v)]: the value is converted to a string. *)
Definition localStorage_setItem (key : string) (v : Value) : Async unit :=
  SetItem key (to_string v)
    (fun r => match r with None => Return tt | Some e => Throw e end).

Definition localStorage_removeItem (key : string) : Async unit :=
  RemoveItem key (Return tt).

Definition Date_now : Async number := DateNow (fun ms => Return (num_of_Z ms)).

(** [await fetch(url, options)] *)
Definition fetch (url : string) (options : Value) : Async Response :=
  Fetch url options
    (fun o => match o with Responded r => Return r | Failed => Throw TypeError end).

(** [await response.json()] *)
Definition json (r : Response) : Async Value :=
  AwaitJson r (fun b => match b with Some v => Return v | None => Throw SyntaxError end).

(** [f()] for an [async] function [f] whose promise is dropped. *)
Definition call (t : Async bool) : Async unit := Spawn t (Return tt).

Definition lift {A : Type} (r : Exn + A) : Async A :=
  match r with
  | inl e => Throw e
  | inr a => Return a
  end.

(** [v.key] *)
Definition prop (v : Value) (key : string) : Async Value := lift (get_prop v key).

(** [JSON.parse(text)] *)
Definition parse (text : string) : Async Value :=
  match JSON_parse text with
  | Got v _ => Return v
  | Bad => Throw SyntaxError
  | Beyond => Unmodelled
  end.

(** [JSON.stringify(v)] as a value. *)
Definition stringify (v : Value) : Value :=
  match JSON_stringify v with
  | Some s => VStr s
  | None => VUndefined
  end.

(** [atob(v)]: the argument is converted to a string. *)
Definition decode_base64 (v : Value) : Async string :=
  match atob (to_string v) with
  | Some s => Return s
  | None => Throw InvalidCharacterError
  end.

(** What [getItem] returned, as a value: [null] when the key is absent. *)
Definition item (o : option string) : Value :=
  match o with
  | Some s => VStr s
  | None => VNull
  end.

(** [arr[i]] for an array of strings. *)
Definition index (arr : list string) (i : nat) : Value :=
  match arr !! i with
  | Some s => VStr s
  | None => VUndefined
  end.

(** ** Running a computation *)

(** A suspended [async] function: what it waits for and how it resumes. *)
Inductive Pending (A : Type) : Type :=
| AwaitingFetch (k : FetchOutcome -> Async A)
| AwaitingBody (r : Response) (k : option Value -> Async A).
Arguments AwaitingFetch {A} k.
Arguments AwaitingBody {A} r k.

(** Where a computation stands when control returns to the event loop. *)
Inductive Susp (A : Type) : Type :=
| Finished (r : Exn + A)
| Stuck
| Suspended (p : Pending A).
Arguments Finished {A} r.
Arguments Stuck {A}.
Arguments Suspended {A} p.

Record Step (A : Type) : Type := {
  step_store : Storage;
  step_events : list Event;
  step_spawned : list (Pending bool);
  step_next : Susp A
}.
Arguments step_store {A} s.
Arguments step_events {A} s.
Arguments step_spawned {A} s.
Arguments step_next {A} s.

(** One synchronous stretch: [t] runs from store [st] at time [now] until it
    returns, throws or is suspended. Functions called without [await] run
    their first stretch inside it and are left in [step_spawned]. *)
Fixpoint drive {A : Type} (now : Z) (t : Async A) (st : Storage) : Step A :=
  match t with
  | Return a => {| step_store := st; step_events := []; step_spawned := [];
                   step_next := Finished (inr a) |}
  | Throw e => {| step_store := st; step_events := []; step_spawned := [];
                  step_next := Finished (inl e) |}
  | Unmodelled => {| step_store := st; step_events := []; step_spawned := [];
                     step_next := Stuck |}
  | GetItem key k => drive now (k (storage_getItem st key)) st
  | SetItem key v k =>
      match storage_setItem st key v with
      | inr st' => drive now (k None) st'
      | inl e => drive now (k (Some e)) st
      end
  | RemoveItem key k => drive now k (storage_removeItem st key)
  | DateNow k => drive now (k now) st
  | Emit e k =>
      let s := drive now k st in
      {| step_store := step_store s; step_events := e :: step_events s;
         step_spawned := step_spawned s; step_next := step_next s |}
  | Fetch url o k =>
      {| step_store := st; step_events := [Requested url o]; step_spawned := [];
         step_next := Suspended (AwaitingFetch k) |}
  | AwaitJson r k =>
      {| step_store := st; step_events := []; step_spawned := [];
         step_next := Suspended (AwaitingBody r k) |}
  | Spawn t' k =>
      let s1 := drive now t' st in
      match step_next s1 with
      | Stuck =>
          {| step_store := step_store s1; step_events := step_events s1;
             step_spawned := step_spawned s1; step_next := Stuck |}
      | Finished _ =>
          let s2 := drive now k (step_store s1) in
          {| step_store := step_store s2;
             step_events := step_events s1 ++ step_events s2;
             step_spawned := step_spawned s1 ++ step_spawned s2;
             step_next := step_next s2 |}
      | Suspended p =>
          let s2 := drive now k (step_store s1) in
          {| step_store := step_store s2;
             step_events := step_events s1 ++ step_events s2;
             step_spawned := step_spawned s1 ++ p :: step_spawned s2;
             step_next := step_next s2 |}
      end
  end.

(** *** Sequencing, seen from the event loop *)

Definition bind_pending {A B : Type} (p : Pending A) (f : A -> Async B) : Pending B :=
  match p with
  | AwaitingFetch k => AwaitingFetch (fun o => bind (k o) f)
  | AwaitingBody r k => AwaitingBody r (fun v => bind (k v) f)
  end.

(** The stretch [s] with another standing. *)
Definition retag {A B : Type} (s : Step A) (next : Susp B) : Step B :=
  {| step_store := step_store s; step_events := step_events s;
     step_spawned := step_spawned s; step_next := next |}.

(** The stretch [s2] run after the stretch [s1]. *)
Definition prepend {A B : Type} (s1 : Step A) (s2 : Step B) : Step B :=
  {| step_store := step_store s2; step_events := step_events s1 ++ step_events s2;
     step_spawned := step_spawned s1 ++ step_spawned s2; step_next := step_next s2 |}.

(** Resuming a suspended function with the outcome of what it awaited. *)
Definition resume {A : Type} (p : Pending A) (o : FetchOutcome) : Async A :=
  match p with
  | AwaitingFetch k => k o
  | AwaitingBody r k => k (body r)
  end.

Definition awaits_fetch {A : Type} (p : Pending A) : bool :=
  match p with
  | AwaitingFetch _ => true
  | AwaitingBody _ _ => false
  end.

(** How a call ended. *)
Inductive Settled (A : Type) : Type :=
| Resolved (a : A)
| Rejected (e : Exn)
| Unknown.
Arguments Resolved {A} a.
Arguments Rejected {A} e.
Arguments Unknown {A}.

Record Final (A : Type) : Type := {
  final_store : Storage;
  trace : list Event;
  result : Settled A
}.
Arguments final_store {A} f.
Arguments trace {A} f.
Arguments result {A} f.

Definition settled {A : Type} (r : Exn + A) : Settled A :=
  match r with
  | inl e => Rejected e
  | inr a => Resolved a
  end.

(** The event loop once the called function has finished: the functions it
    left behind are resumed in the order they were started, until none is
    pending. [net i] is how the [i]-th request to settle settles. *)
Fixpoint drain (fuel : nat) (now : Z) (net : nat -> FetchOutcome) (i : nat)
    (st : Storage) (evs : list Event) (pool : list (Pending bool))
  : option (Final unit) :=
  match fuel with
  | O => None
  | S f =>
      match pool with
      | [] => Some {| final_store := st; trace := evs; result := Resolved tt |}
      | p :: rest =>
          let s := drive now (resume p (net i)) st in
          let i' := if awaits_fetch p then S i else i in
          match step_next s with
          | Stuck => Some {| final_store := step_store s;
                             trace := evs ++ step_events s; result := Unknown |}
          | Finished _ =>
              drain f now net i' (step_store s) (evs ++ step_events s)
                (rest ++ step_spawned s)
          | Suspended p' =>
              drain f now net i' (step_store s) (evs ++ step_events s)
                (rest ++ step_spawned s ++ [p'])
          end
      end
  end.

(** The event loop for one call taken alone: the called function is resumed
    until it finishes, then what it left behind is drained. *)
Fixpoint settle {A : Type} (fuel : nat) (now : Z) (net : nat -> FetchOutcome)
    (i : nat) (st : Storage) (evs : list Event)
    (main : Susp A) (pool : list (Pending bool)) : option (Final A) :=
  match fuel with
  | O => None
  | S f =>
      match main with
      | Stuck => Some {| final_store := st; trace := evs; result := Unknown |}
      | Finished r =>
          match drain f now net i st evs pool with
          | Some d =>
              Some {| final_store := final_store d; trace := trace d;
                      result := match result d with
                                | Resolved _ => settled r
                                | _ => Unknown
                                end |}
          | None => None
          end
      | Suspended p =>
          let s := drive now (resume p (net i)) st in
          settle f now net (if awaits_fetch p then S i else i) (step_store s)
            (evs ++ step_events s) (step_next s) (pool ++ step_spawned s)
      end
  end.

(** A call of [t] in store [st], run until nothing is left pending. *)
Definition run {A : Type} (fuel : nat) (now : Z) (net : nat -> FetchOutcome)
    (t : Async A) (st : Storage) : option (Final A) :=
  let s := drive now t st in
  settle fuel now net 0 (step_store s) (step_events s) (step_next s)
    (step_spawned s).

(** ** Several calls in flight *)

(** The state of the page between two turns of the event loop: the store
    and the [async] functions that are suspended. *)
Record Config : Type := { cstore : Storage; cpool : list (Pending bool) }.

(** A computation with its result dropped. *)
Definition forget {A : Type} (t : Async A) : Async bool := t ;; Return true.

Definition pending_of {A : Type} (s : Susp A) : list (Pending A) :=
  match s with
  | Suspended p => [p]
  | _ => []
  end.

(** The configuration after the stretch [s] run from a pool [pool]. *)
Definition after (s : Step bool) (pool : list (Pending bool)) : Config :=
  {| cstore := step_store s;
     cpool := pool ++ step_spawned s ++ pending_of (step_next s) |}.

(* ===================================================================== *)
(** * Part II. The sources *)
(* ===================================================================== *)

(** ** [src/frontend/auth.js] *)

Definition API_BASE_URL : string := "http://localhost:5000/api".

(** [`Bearer ${token}`] *)
Definition bearer (token : Value) : Value := VStr ("Bearer " +:+ to_string token).

Definition getAccessToken : Async Value :=
  GetItem "access_token" (fun o => Return (item o)).

Definition getRefreshToken : Async Value :=
  GetItem "refresh_token" (fun o => Return (item o)).

Definition logout : Async bool :=
  token <- getAccessToken ;;
  (if truthy token then
     try
       (fetch (API_BASE_URL +:+ "/auth/logout")
          (VObj [("method", VStr "POST");
                 ("headers", VObj [("Authorization", bearer token)])]) ;;
        Return tt)
     catch error => Return tt
   else Return tt) ;;
  (* Clear local storage *)
  localStorage_removeItem "access_token" ;;
  localStorage_removeItem "refresh_token" ;;
  localStorage_removeItem "user" ;;
  Return true.

Definition refreshAccessToken : Async bool :=
  refreshToken <- getRefreshToken ;;
  if negb (truthy refreshToken) then Return false
  else
    try
      (response <- fetch (API_BASE_URL +:+ "/auth/refresh")
                     (VObj [("method", VStr "POST");
                            ("headers", VObj [("Authorization", bearer refreshToken)])]) ;;
       if negb (ok response) then
         (* If refresh fails, log out the user *)
         (call logout ;; Return false)
       else
         (data <- json response ;;
          (* Store the new access token *)
          access_token <- prop data "access_token" ;;
          localStorage_setItem "access_token" access_token ;;
          Return true))
    catch error => (call logout ;; Return false).

Definition isAuthenticated : Async bool :=
  token <- getAccessToken ;;
  if negb (truthy token) then Return false
  else
    (* Check if token is expired *)
    try
      (text <- decode_base64 (index (split "." (to_string token)) 1) ;;
       payload <- parse text ;;
       exp <- prop payload "exp" ;;
       let expiryTime := num_mul (to_number exp) (num_of_Z 1000) in
       now <- Date_now ;;
       if num_le expiryTime now then
         (* Token expired - try to refresh *)
         (refreshToken <- getRefreshToken ;;
          if truthy refreshToken then
            (call refreshAccessToken ;; Return false)
          else
            (* No refresh token, clear everything *)
            (call logout ;; Return false))
       else
         (* Token is valid *)
         Return true)
    catch error => (call logout ;; Return false).

Definition getCurrentUser : Async Value :=
  authenticated <- isAuthenticated ;;
  if negb authenticated then Return VNull
  else
    try
      (token <- getAccessToken ;;
       response <- fetch (API_BASE_URL +:+ "/auth/me")
                     (VObj [("method", VStr "GET");
                            ("headers", VObj [("Authorization", bearer token)])]) ;;
       if negb (ok response) then Throw (Error "Failed to get user data")
       else json response)
    catch error => Return VNull.

(** The [{ success: false, message }] results. *)
Definition failure (message : Value) : Value :=
  VObj [("success", VBool false); ("message", message)].

(** [a || b] *)
Definition or_else (a b : Value) : Value := if truthy a then a else b.

Definition login (username password : string) : Async Value :=
  try
    (response <- fetch (API_BASE_URL +:+ "/auth/login")
                   (VObj [("method", VStr "POST");
                          ("headers", VObj [("Content-Type", VStr "application/json")]);
                          ("body", stringify (VObj [("username", VStr username);
                                                    ("password", VStr password)]))]) ;;
     data <- json response ;;
     if negb (ok response) then
       (error <- prop data "error" ;;
        Return (failure (or_else error (VStr "Login failed"))))
     else
       ((* Store tokens *)
        access_token <- prop data "access_token" ;;
        localStorage_setItem "access_token" access_token ;;
        refresh_token <- prop data "refresh_token" ;;
        localStorage_setItem "refresh_token" refresh_token ;;
        (* Store basic user info *)
        user_id <- prop data "user_id" ;;
        username' <- prop data "username" ;;
        first_name <- prop data "first_name" ;;
        last_name <- prop data "last_name" ;;
        role <- prop data "role" ;;
        let user := VObj [("id", user_id); ("username", username');
                          ("firstName", first_name); ("lastName", last_name);
                          ("role", role)] in
        localStorage_setItem "user" (stringify user) ;;
        Return (VObj [("success", VBool true); ("user", user)])))
  catch error => Return (failure (VStr "Network error. Please try again.")).

Definition register (userData : Value) : Async Value :=
  try
    (response <- fetch (API_BASE_URL +:+ "/auth/register")
                   (VObj [("method", VStr "POST");
                          ("headers", VObj [("Content-Type", VStr "application/json")]);
                          ("body", stringify userData)]) ;;
     data <- json response ;;
     if negb (ok response) then
       (error <- prop data "error" ;;
        Return (failure (or_else error (VStr "Registration failed"))))
     else
       Return (VObj [("success", VBool true);
                     ("message", VStr "Registration successful")]))
  catch error => Return (failure (VStr "Network error. Please try again.")).

Definition getUser : Async Value :=
  userJson <- GetItem "user" (fun o => Return (item o)) ;;
  if truthy userJson then parse (to_string userJson) else Return VNull.

(** [user && user.role === role] *)
Definition hasRole (role : string) : Async Value :=
  user <- getUser ;;
  if truthy user then
    (r <- prop user "role" ;; Return (VBool (strict_eq_str r role)))
  else Return user.

(** The own enumerable properties [{...v}] copies. *)
Definition spread (v : Value) : list (string * Value) :=
  match v with
  | VObj props => props
  | VArr items => imap (fun i x => (dec_of_N (N.of_nat i), x)) items
  | VStr s => imap (fun i c => (dec_of_N (N.of_nat i), VStr (String c EmptyString)))
                (list_ascii_of_string s)
  | _ => []
  end.

(** The default [options = {}] of a parameter. *)
Definition or_empty (options : Value) : Value :=
  match options with
  | VUndefined => VObj []
  | _ => options
  end.

Definition withAuth (options : Value) : Async Value :=
  let options := or_empty options in
  token <- getAccessToken ;;
  if negb (truthy token) then Return options
  else
    (headers <- prop options "headers" ;;
     Return (VObj (set_prop "headers"
                     (VObj (set_prop "Authorization" (bearer token) (spread headers)))
                     (spread options)))).

Definition authFetch (url : string) (options : Value) : Async Response :=
  let options := or_empty options in
  authOptions <- withAuth options ;;
  (* First attempt with current token *)
  response <- fetch url authOptions ;;
  (* If unauthorized and we have a refresh token, try to refresh and retry *)
  if (status response =? 401)%Z then
    (refreshToken <- getRefreshToken ;;
     if truthy refreshToken then
       (refreshed <- refreshAccessToken ;;
        if refreshed : bool then
          ((* Retry with new token *)
           newAuthOptions <- withAuth options ;;
           fetch url newAuthOptions)
        else Return response)
     else Return response)
  else Return response.

(** ** [src/frontend/scripts.js]: the session gate and the role projector *)

(** [s.includes(sub)] on strings. *)
Fixpoint str_contains (sub s : string) : bool :=
  match strip_prefix sub s with
  | Some _ => true
  | None => match s with
            | EmptyString => false
            | String _ r => str_contains sub r
            end
  end.

(** [pathname] is [window.location.pathname]. *)
Definition checkAuthentication (pathname : string) : Async unit :=
  (* Skip check for login and register pages *)
  if str_contains "login.html" pathname || str_contains "register.html" pathname
  then Return tt
  else
    (authenticated <- isAuthenticated ;;
     if negb authenticated then
       (* Redirect to login *)
       Emit (Navigated "login.html") (Return tt)
     else Return tt).

(** An element carrying [data-role-access], with its [style.display]. *)
Record Element : Type := { roleAccess : string; display : string }.

(** The role badge [#userRole]. *)
Record Badge : Type := { textContent : string; className : string }.

(** The part of the document [updateUserUI] touches: the text of
    [#userName] and the badge [#userRole], when the page has them, and the
    elements selected by [[data-role-access]]. *)
Record Page : Type := {
  userName : option string;
  userRole : option Badge;
  gated : list Element
}.

(** Assigning [v] to [textContent]: [null] and [undefined] give the empty
    text. *)
Definition as_text (v : Value) : string :=
  match v with
  | VUndefined | VNull => EmptyString
  | _ => to_string v
  end.

Definition badgeClass (role : Value) : string :=
  if strict_eq_str role "admin" then "bg-danger"
  else if strict_eq_str role "doctor" then "bg-primary"
  else if strict_eq_str role "nurse" then "bg-success"
  else if strict_eq_str role "receptionist" then "bg-info"
  else if strict_eq_str role "data_analyst" then "bg-warning"
  else "bg-secondary".

(** [element.dataset.roleAccess.split(',').map(r => r.trim())] *)
Definition allowedRoles (element : Element) : list string :=
  map trim (split "," (roleAccess element)).

(** The body of the [forEach] over the gated elements. *)
Definition project (role : Value) (element : Element) : Element :=
  if includes (allowedRoles element) role
  then {| roleAccess := roleAccess element; display := "" |}
  else {| roleAccess := roleAccess element; display := "none" |}.

Definition updateUserUI (page : Page) : Async Page :=
  user <- getUser ;;
  if negb (truthy user) then Return page
  else
    (firstName <- prop user "firstName" ;;
     lastName <- prop user "lastName" ;;
     role <- prop user "role" ;;
     Return
       {| (* Update user name in navbar *)
          userName :=
            match userName page with
            | Some _ => Some (to_string firstName +:+ " " +:+ to_string lastName)
            | None => None
            end;
          (* Update role badge *)
          userRole :=
            match userRole page with
            | Some _ => Some {| textContent := as_text role;
                                className := "badge " +:+ badgeClass role |}
            | None => None
            end;
          (* Show/hide elements based on role *)
          gated := map (project role) (gated page) |}).

(** ** The registration page: the submit handler of [#registerForm] *)

(** The values of the form's fields when it is submitted. *)
Record RegisterForm : Type := {
  firstName : string;
  lastName : string;
  username : string;
  email : string;
  password : string;
  confirmPassword : string
}.

Definition showAlert (type : string) (message : Value) : Async unit :=
  Emit (Alerted type (to_string message)) (Return tt).

(** The class [[!@#$%^&*]]. *)
Definition is_policy_symbol (c : ascii) : bool :=
  existsb (Ascii.eqb c) (list_ascii_of_string "!@#$%^&*").

(** [passwordRegex.test(password)] for
    [/^(?=.*[A-Z])(?=.*[0-9])(?=.*[!@#$%^&*])(?=.{8,})/]: each lookahead
    starts at the beginning and [.] stops at a line terminator, so the four
    conditions are read on the first line of the text. *)
Definition passwordRegex_test (password : string) : bool :=
  let line := str_take_while (fun c => negb (is_line_terminator c)) password in
  str_existsb is_upper line && str_existsb is_digit line
  && str_existsb is_policy_symbol line && (8 <=? String.length line)%nat.

Definition policy_message : string :=
  "Password must be at least 8 characters with at least one uppercase letter, number, and special character".

Definition registerForm_submit (form : RegisterForm) : Async unit :=
  (* Validate inputs *)
  if (String.length (username form) <? 5)%nat then
    showAlert "danger" (VStr "Username must be at least 5 characters long")
  else if negb (passwordRegex_test (password form)) then
    showAlert "danger" (VStr policy_message)
  else if negb (String.eqb (password form) (confirmPassword form)) then
    showAlert "danger" (VStr "Passwords do not match")
  else
    try
      (response <- register (VObj [("first_name", VStr (firstName form));
                                   ("last_name", VStr (lastName form));
                                   ("username", VStr (username form));
                                   ("email", VStr (email form));
                                   ("password", VStr (password form))]) ;;
       success <- prop response "success" ;;
       if truthy success then
         (showAlert "success" (VStr "Registration successful! Redirecting to login page...") ;;
          (* Redirect to login page after a short delay *)
          Emit (Scheduled 2000 "login.html") (Return tt))
       else
         (message <- prop response "message" ;;
          showAlert "danger" message))
    catch error =>
      match error with
      | Error message =>
          showAlert "danger" (or_else (VStr message)
                                (VStr "Registration failed. Please try again."))
      | _ => Unmodelled (* the text of a platform exception is engine-defined *)
      end.

(** ** The operations of a session *)

Inductive Op : Type :=
| OpLogin (username password : string)
| OpRegister (userData : Value)
| OpLogout
| OpRefreshAccessToken
| OpIsAuthenticated
| OpGetCurrentUser
| OpAuthFetch (url : string) (options : Value).

Definition body_of (op : Op) : Async bool :=
  match op with
  | OpLogin u p => forget (login u p)
  | OpRegister d => forget (register d)
  | OpLogout => forget logout
  | OpRefreshAccessToken => forget refreshAccessToken
  | OpIsAuthenticated => forget isAuthenticated
  | OpGetCurrentUser => forget getCurrentUser
  | OpAuthFetch url o => forget (authFetch url o)
  end.

(** One turn of the event loop: a session operation is called, or one of the
    suspended functions is resumed with the outcome of what it awaited. The
    turns of different calls interleave freely. A stretch that leaves the
    model is not a turn. *)
Inductive turn : Config -> Config -> Prop :=
| turn_call (op : Op) (now : Z) (c : Config) :
    step_next (drive now (body_of op) (cstore c)) <> Stuck ->
    turn c (after (drive now (body_of op) (cstore c)) (cpool c))
| turn_resume (now : Z) (st : Storage) (before : list (Pending bool))
    (p : Pending bool) (behind : list (Pending bool)) (o : FetchOutcome) :
    step_next (drive now (resume p o) st) <> Stuck ->
    turn {| cstore := st; cpool := before ++ p :: behind |}
         (after (drive now (resume p o) st) (before ++ behind)).

(** The configurations a page can be in, starting with an empty store and
    nothing in flight. *)
Inductive reachable (q : nat) : Config -> Prop :=
| reachable_start : reachable q {| cstore := empty_storage q; cpool := [] |}
| reachable_turn (c c' : Config) : reachable q c -> turn c c' -> reachable q c'.

(** Presence of a key in the store. *)
Definition stored (key : string) (st : Storage) : Prop := is_Some (items st !! key).

(* ===================================================================== *)
(** * Part III. Vocabulary of the statements *)
(* ===================================================================== *)

(** The key holds a non-empty text: what [if (token)] tests. *)
Definition holds (key : string) (st : Storage) : bool :=
  truthy (item (storage_getItem st key)).

Definition refresh_url : string := API_BASE_URL +:+ "/auth/refresh".
Definition logout_url : string := API_BASE_URL +:+ "/auth/logout".
Definition register_url : string := API_BASE_URL +:+ "/auth/register".

(** The request [refreshAccessToken] issues from store [st]. *)
Definition refresh_request (st : Storage) : Event :=
  Requested refresh_url
    (VObj [("method", VStr "POST");
           ("headers", VObj [("Authorization",
                              bearer (item (storage_getItem st "refresh_token")))])]).

(** The request [logout] issues from store [st]. *)
Definition logout_request (st : Storage) : Event :=
  Requested logout_url
    (VObj [("method", VStr "POST");
           ("headers", VObj [("Authorization",
                              bearer (item (storage_getItem st "access_token")))])]).

(** The requests a forced logout issues: one when an access token is held. *)
Definition logout_requests (st : Storage) : list Event :=
  if holds "access_token" st then [logout_request st] else [].

(** The three removals of [logout]. *)
Definition wiped (st : Storage) : Storage :=
  storage_removeItem
    (storage_removeItem (storage_removeItem st "access_token") "refresh_token") "user".

(** The three keys of the session are absent. *)
Definition cleared (st : Storage) : Prop :=
  items st !! "access_token" = None /\ items st !! "refresh_token" = None
  /\ items st !! "user" = None.

(** The store after a refresh that succeeds on outcome [o]: a 2xx response
    whose body is a value with readable properties, and room for the new
    token; [None] when the refresh fails. *)
Definition refreshed (st : Storage) (o : FetchOutcome) : option Storage :=
  match o with
  | Responded r =>
      if ok r then
        match body r with
        | Some data =>
            match get_prop data "access_token" with
            | inr token =>
                match storage_setItem st "access_token" (to_string token) with
                | inr st' => Some st'
                | inl _ => None
                end
            | inl _ => None
            end
        | None => None
        end
      else None
  | Failed => None
  end.

(** What a synchronous function returns in store [st]. *)
Definition returns {A : Type} (t : Async A) (st : Storage) (a : A) : Prop :=
  forall now, drive now t st =
    {| step_store := st; step_events := []; step_spawned := [];
       step_next := Finished (inr a) |}.

(** [data.key] once [data] is known to have readable properties. *)
Definition field (data : Value) (key : string) : Value :=
  match get_prop data key with
  | inr v => v
  | inl _ => VUndefined
  end.

(** Neither [null] nor [undefined]: property reads do not throw. *)
Definition readable (v : Value) : bool :=
  match v with
  | VUndefined | VNull => false
  | _ => true
  end.

(** A 2xx response whose body is a value with readable properties. *)
Definition usable (r : Response) : bool :=
  ok r && match body r with
          | Some data => readable data
          | None => false
          end.

(** The user object [login] caches and returns. *)
Definition profile (data : Value) : Value :=
  VObj [("id", field data "user_id"); ("username", field data "username");
        ("firstName", field data "first_name"); ("lastName", field data "last_name");
        ("role", field data "role")].

Definition network_error : Value := failure (VStr "Network error. Please try again.").

(** [options] with the bearer [token] in its headers. *)
Definition with_bearer (token options : Value) : Value :=
  VObj (set_prop "headers"
          (VObj (set_prop "Authorization" (bearer token)
                   (spread (field options "headers"))))
          (spread options)).

(** What [withAuth(options)] returns in store [st]. *)
Definition authOptions (st : Storage) (options : Value) : Value :=
  if holds "access_token" st
  then with_bearer (item (storage_getItem st "access_token")) (or_empty options)
  else or_empty options.


(** The payload [isAuthenticated] reads from a token. *)
Definition token_payload (token : string) : Parsed Value :=
  match atob (to_string (index (split "." token) 1)) with
  | Some text => JSON_parse text
  | None => Bad
  end.

(** [payload.exp * 1000] *)
Definition expiryTime (exp : Value) : number := num_mul (to_number exp) (num_of_Z 1000).

(** Following the words of the specification: the middle segment of a
    three-segment token read as base64url, the alphabet of signed tokens,
    where [-] and [_] stand for [+] and [/]. *)
Definition base64url_char (c : ascii) : ascii :=
  if Ascii.eqb c "-" then "+"%char else if Ascii.eqb c "_" then "/"%char else c.

Fixpoint str_map (f : ascii -> ascii) (s : string) : string :=
  match s with
  | EmptyString => EmptyString
  | String c r => String (f c) (str_map f r)
  end.

Definition base64url_decode (s : string) : option string :=
  if str_existsb (fun c => Ascii.eqb c "+" || Ascii.eqb c "/") s then None
  else atob (str_map base64url_char s).

(** Following the words of the specification: a token is well formed with
    expiry [e] when it has three segments and the middle one is
    base64url-encoded JSON whose [exp] claim is the number [e]. *)
Definition well_formed_exp (token : string) : option number :=
  match split "." token with
  | [_; segment; _] =>
      match base64url_decode segment with
      | Some text =>
          match JSON_parse text with
          | Got (VObj props) _ =>
              match lookup_prop "exp" props with
              | Some (VNum e) => Some e
              | _ => None
              end
          | _ => None
          end
      | None => None
      end
  | _ => None
  end.


(** The composite password policy: at least 8 characters, an uppercase
    letter, a digit and one of the symbols [!@#$%^&*]. *)
Definition meets_policy (pw : string) : bool :=
  (8 <=? String.length pw)%nat && str_existsb is_upper pw && str_existsb is_digit pw
  && str_existsb is_policy_symbol pw.

(** ** Sample data of the counterexamples and witnesses *)

(** A login response as the backend sends it. *)
Definition sample_session : Value :=
  VObj [("access_token", VStr "access"); ("refresh_token", VStr "refresh");
        ("user_id", VNum (num_of_Z 7)); ("username", VStr "alice");
        ("first_name", VStr "Alice"); ("last_name", VStr "Doe");
        ("role", VStr "nurse")].

(** A response 200 with body [data]. *)
Definition answer (data : Value) : FetchOutcome :=
  Responded {| status := 200; body := Some data |}.

(** Every request is answered 200 with [data]. *)
Definition always (data : Value) : nat -> FetchOutcome := fun _ => answer data.

Definition unreachable : nat -> FetchOutcome := fun _ => Failed.

(** A token whose payload is [{}]: base64 [e30]. *)
Definition token_without_exp : string := "a.e30.b".

(** A token whose payload is [{"exp":1700000000}]. *)
Definition token_expiring_2023 : string := "h.eyJleHAiOjE3MDAwMDAwMDB9.s".

(** A token as a JWT library issues it, with header
    [{"alg":"HS256","typ":"JWT"}] and payload
    [{"exp":4102444800,"username":"Zoë"}] (UTF-8): the base64url text of
    the payload contains [_]. *)
Definition token_of_zoe : string :=
  "eyJhbGciOiJIUzI1NiIsInR5cCI6IkpXVCJ9.eyJleHAiOjQxMDI0NDQ4MDAsInVzZXJuYW1lIjoiWm_DqyJ9.c2ln".

Definition store_of (l : list (string * string)) : Storage :=
  {| items := list_to_map l; quota := 4096 |}.


(** A page with one element reserved to administrators, as the markup
    leaves it: displayed. *)
Definition admin_page : Page :=
  {| userName := Some "User";
     userRole := Some {| textContent := "Role"; className := "badge bg-secondary" |};
     gated := [{| roleAccess := "admin"; display := "" |}] |}.

(** The registration data of a user whose password is [abc]. *)
Definition weak_registration : Value :=
  VObj [("first_name", VStr "Alice"); ("last_name", VStr "Doe");
        ("username", VStr "alice"); ("email", VStr "alice@example.org");
        ("password", VStr "abc")].

Definition weak_form : RegisterForm :=
  {| firstName := "Alice"; lastName := "Doe"; username := "alice";
     email := "alice@example.org"; password := "abc"; confirmPassword := "abc" |}.

Definition patients_url : string := API_BASE_URL +:+ "/patients".

(** The first request is answered 401, the refresh 200 with a new token,
    and what follows 200 with an empty list. *)
Definition refreshing : nat -> FetchOutcome :=
  fun i => match i with
           | 0 => Responded {| status := 401; body := None |}
           | 1 => answer (VObj [("access_token", VStr "fresh")])
           | _ => answer (VArr [])
           end.

(** An expired access token with a refresh token. *)
Definition expired_session : Storage :=
  store_of [("access_token", token_expiring_2023); ("refresh_token", "refresh")].

(** ** Scenarios of interleaved calls *)

Definition is_stuck {A : Type} (s : Susp A) : bool :=
  match s with
  | Stuck => true
  | _ => false
  end.

(** The operation [op] is called in configuration [c]. *)
Definition call_op (op : Op) (now : Z) (c : Config) : Config :=
  let s := drive now (body_of op) (cstore c) in
  if is_stuck (step_next s) then c else after s (cpool c).

(** The [i]-th suspended function of [c] is resumed with outcome [o]. *)
Definition resume_at (i : nat) (o : FetchOutcome) (now : Z) (c : Config) : Config :=
  match cpool c !! i with
  | Some p =>
      let s := drive now (resume p o) (cstore c) in
      if is_stuck (step_next s) then c
      else after s (take i (cpool c) ++ drop (S i) (cpool c))
  | None => c
  end.

Definition start (q : nat) : Config := {| cstore := empty_storage q; cpool := [] |}.

(** A login, answered and completed. *)
Definition logged_in : Config :=
  resume_at 0 Failed 0
    (resume_at 0 (answer sample_session) 0
       (call_op (OpLogin "alice" "secret") 0 (start 4096))).

(** After the login, a refresh is started and, while its request is in
    flight, a logout is started and completes; then the refresh is
    answered. *)
Definition refresh_overtaken_by_logout : Config :=
  resume_at 0 Failed 0
    (resume_at 0 (answer (VObj [("access_token", VStr "fresh")])) 0
       (resume_at 1 Failed 0
          (call_op OpLogout 0
             (call_op OpRefreshAccessToken 0 logged_in)))).

(** ** Invariants of the store across interleaved calls *)

Section Invariant.
Variable Inv : Storage -> Prop.

(** [keeps t st Q]: when [t] runs from [st], [Q] holds of the store where
    its first stretch ends, and every later stretch of [t], and of the
    functions it starts, ends in [Inv] when it starts in [Inv]. *)
Fixpoint keeps {A : Type} (t : Async A) (st : Storage) (Q : Storage -> Prop) : Prop :=
  match t with
  | Return _ | Throw _ | Unmodelled => Q st
  | GetItem key k => keeps (k (storage_getItem st key)) st Q
  | SetItem key v k =>
      match storage_setItem st key v with
      | inr st' => keeps (k None) st' Q
      | inl e => keeps (k (Some e)) st Q
      end
  | RemoveItem key k => keeps k (storage_removeItem st key) Q
  | DateNow k => forall now, keeps (k now) st Q
  | Emit _ k => keeps k st Q
  | Fetch _ _ k => Q st /\ forall o st', Inv st' -> keeps (k o) st' Inv
  | AwaitJson r k => Q st /\ forall st', Inv st' -> keeps (k (body r)) st' Inv
  | Spawn t' k => keeps t' st (fun st1 => keeps k st1 Q)
  end.

Definition safe {A : Type} (p : Pending A) : Prop :=
  forall o st, Inv st -> keeps (resume p o) st Inv.

Definition safe_next {A : Type} (s : Susp A) : Prop :=
  match s with
  | Suspended p => safe p
  | _ => True
  end.

Definition config_ok (c : Config) : Prop :=
  Inv (cstore c) /\ Forall safe (cpool c).
End Invariant.

(** A cached user is backed by an access token. *)
Definition user_has_token (st : Storage) : Prop :=
  stored "user" st -> stored "access_token" st.

(* ===================================================================== *)
(** * Part IV. More of the front end *)
(* ===================================================================== *)

(** Other functions of the front end: the handlers of the pages around the
    session, the submit handler of the patient form, the search box and the
    filter of the patient list, and the table of high-risk pregnancies. The
    part of the document a handler touches is a record that the handler
    takes and returns; the text of an exception the platform raises is a
    parameter. *)

(** ** Page handlers around the session *)

(** The click handler of [#logoutBtn] ([src/frontend/scripts.js]): the page
    leaves for the login page once [logout] has completed. *)
Definition logoutBtn_click : Async unit :=
  logout ;;
  Emit (Navigated "login.html") (Return tt).

(** The [DOMContentLoaded] handler of the registration page, before it
    installs the submit handler: a user already logged in is sent to the
    home page. *)
Definition registerPage_load : Async unit :=
  (* Check if user is already logged in *)
  authenticated <- isAuthenticated ;;
  if authenticated : bool then Emit (Navigated "index.html") (Return tt)
  else Return tt.

(** ** [src/frontend/scripts.js]: the patient registration form *)

(** [s.replace(pattern, replacement)] for a string pattern: the first
    occurrence is replaced. *)
Fixpoint replace (pattern replacement s : string) : string :=
  match strip_prefix pattern s with
  | Some r => replacement +:+ r
  | None => match s with
            | EmptyString => EmptyString
            | String c r => String c (replace pattern replacement r)
            end
  end.

Module PatientPage.

(** The part of the page the submit handler of [#patientForm] touches: the
    entries of the form, name and value in document order, and the submit
    button. *)
Record t : Type := {
  entries : list (string * string);
  disabled : bool;
  textContent : string
}.

(** [formData.get(name)]: the first value of that name, [null] when the
    form has no such field. *)
Fixpoint get (formData : list (string * string)) (name : string) : Value :=
  match formData with
  | [] => VNull
  | (n, v) :: r => if String.eqb n name then VStr v else get r name
  end.

(** [form.reset()]: the fields of [#patientForm] declare no default value,
    and the first option of its [select] has the empty value. *)
Definition reset (formData : list (string * string)) : list (string * string) :=
  map (fun entry => (entry.1, EmptyString)) formData.

(** [showAlert(type, message)] of [scripts.js]: the alert is appended to
    [#alertContainer], which is created when the page has none, and fades
    out five seconds later. The model keeps the call. *)
Definition showAlert (type : string) (message : Value) : Async unit :=
  Emit (Alerted type (to_string message)) (Return tt).

Definition requiredFields : list string := ["first_name"; "last_name"; "date_of_birth"].

(** The loop over the required fields. *)
Fixpoint validate (patientData : Value) (fields : list string) : Async unit :=
  match fields with
  | [] => Return tt
  | field :: rest =>
      value <- prop patientData field ;;
      if negb (truthy value) then Throw (Error (replace "_" " " field +:+ " is required"))
      else validate patientData rest
  end.

Section Handler.
(** [error.message] for an exception the platform raised: its text is the
    engine's. *)
Variable platform_message : Exn -> string.

Definition message_of (error : Exn) : string :=
  match error with
  | Error message => message
  | _ => platform_message error
  end.

Definition handlePatientFormSubmit (page : t) : Async t :=
  (* Show loading state *)
  let originalButtonText := textContent page in
  let submitting :=
    {| entries := entries page; disabled := true; textContent := "Submitting..." |} in
  after_try <-
    (try
       ((* Get form data *)
        let formData := entries page in
        let patientData :=
          VObj [("first_name", get formData "firstName");
                ("last_name", get formData "lastName");
                ("date_of_birth", get formData "dateOfBirth");
                ("gender", get formData "gender");
                ("email", get formData "email");
                ("phone", get formData "phone");
                ("address", get formData "address");
                ("city", get formData "city");
                ("state", get formData "state");
                ("zip_code", get formData "zipCode");
                ("insurance_provider", get formData "insuranceProvider");
                ("insurance_id", get formData "insuranceId");
                ("emergency_contact_name", get formData "emergencyContactName");
                ("emergency_contact_phone", get formData "emergencyContactPhone")] in
        (* Validate required fields *)
        validate patientData requiredFields ;;
        (* Send data to API with authentication *)
        response <- authFetch (API_BASE_URL +:+ "/patients")
                      (VObj [("method", VStr "POST");
                             ("headers", VObj [("Content-Type", VStr "application/json")]);
                             ("body", stringify patientData)]) ;;
        (if negb (ok response) then
           (data <- json response ;;
            error <- prop data "error" ;;
            Throw (Error (to_string (or_else error (VStr "Failed to register patient")))))
         else Return tt) ;;
        data <- json response ;;
        (* Show success message *)
        patient_id <- prop data "patient_id" ;;
        showAlert "success"
          (VStr ("Patient registered successfully with ID: " +:+ to_string patient_id)) ;;
        (* Reset form *)
        Return {| entries := reset (entries submitting); disabled := disabled submitting;
                  textContent := textContent submitting |})
     catch error =>
       (showAlert "danger" (VStr (message_of error)) ;;
        Return submitting)) ;;
  (* finally: restore button state *)
  Return {| entries := entries after_try; disabled := false;
            textContent := originalButtonText |}.
End Handler.

End PatientPage.

(** ** [src/frontend/patients.html]: search and filter of the patient list *)

(** [toLowerCase] on a code unit below 256: the letters [A] to [Z], and the
    capital letters of Latin-1, from 192 to 222 but the multiplication sign
    215. *)
Definition toLowerCase_char (c : ascii) : ascii :=
  if is_upper c || (in_range 192 222 c && negb (code c =? 215)%N)
  then ascii_of_N (code c + 32)
  else c.

Definition toLowerCase (s : string) : string := str_map toLowerCase_char s.

Module PatientsList.

(** An item of [#patientsList] as [loadPatients] builds it: the text of its
    [h5], the text of its [p], and its [style.display]. *)
Record item : Type := { h5 : string; p : string; display : string }.

Definition show (i : item) : item := {| h5 := h5 i; p := p i; display := "" |}.
Definition hide (i : item) : item := {| h5 := h5 i; p := p i; display := "none" |}.

(** The [input] handler of [#searchPatient]; [value] is [e.target.value]. *)
Definition searchPatient_input (value : string) (patientItems : list item) : list item :=
  let searchTerm := toLowerCase value in
  map (fun i =>
         let patientName := toLowerCase (h5 i) in
         let patientDetails := toLowerCase (p i) in
         if str_contains searchTerm patientName || str_contains searchTerm patientDetails
         then show i else hide i)
      patientItems.

(** The [change] handler of [#filterPatients]. *)
Definition filterPatients_change (filterValue : string) (patientItems : list item)
  : list item :=
  if String.eqb filterValue "" then
    (* Show all *)
    map show patientItems
  else
    imap (fun index i =>
            if (String.eqb filterValue "high-risk" && (index mod 5 =? 0)%nat)
               || (String.eqb filterValue "missed-followup" && (index mod 4 =? 0)%nat)
               || (String.eqb filterValue "recent" && (index mod 3 =? 0)%nat)
            then show i else hide i)
         patientItems.

End PatientsList.

(** ** [src/frontend/scripts.js]: the table of high-risk pregnancies *)









(* ===================================================================== *)
(** * Part V. More vocabulary *)
(* ===================================================================== *)

Definition me_url : string := API_BASE_URL +:+ "/auth/me".

(** The request [getCurrentUser] issues from store [st]. *)
Definition me_request (st : Storage) : Event :=
  Requested me_url
    (VObj [("method", VStr "GET");
           ("headers", VObj [("Authorization",
                              bearer (item (storage_getItem st "access_token")))])]).

(** The request [register] issues for [userData]. *)
Definition register_request (userData : Value) : Event :=
  Requested register_url
    (VObj [("method", VStr "POST");
           ("headers", VObj [("Content-Type", VStr "application/json")]);
           ("body", stringify userData)]).

(** What the user endpoint's answer gives [getCurrentUser]. *)
Definition user_data (o : FetchOutcome) : Value :=
  match o with
  | Responded r => if ok r then default VNull (body r) else VNull
  | Failed => VNull
  end.

(** What [register] resolves to when its request settles with [o]. *)
Definition registered (o : FetchOutcome) : Value :=
  match o with
  | Failed => network_error
  | Responded r =>
      match body r with
      | None => network_error
      | Some data =>
          if ok r then
            VObj [("success", VBool true); ("message", VStr "Registration successful")]
          else
            match get_prop data "error" with
            | inr error => failure (or_else error (VStr "Registration failed"))
            | inl _ => network_error
            end
      end
  end.

(** The user data the registration form submits: the confirmation is not
    part of it. *)
Definition registration_of (form : RegisterForm) : Value :=
  VObj [("first_name", VStr (firstName form)); ("last_name", VStr (lastName form));
        ("username", VStr (username form)); ("email", VStr (email form));
        ("password", VStr (password form))].



(** The pages [checkAuthentication] leaves alone. *)
Definition is_public (pathname : string) : bool :=
  str_contains "login.html" pathname || str_contains "register.html" pathname.

(** One of the three keys of the session. *)
Definition session_key (key : string) : Prop :=
  key = "access_token" \/ key = "refresh_token" \/ key = "user".

(** The store holds nothing but keys of the session, and has the room it
    was given. *)
Definition session_only (q : nat) (st : Storage) : Prop :=
  quota st = q /\ forall key, stored key st -> session_key key.

(** The order in which the keys of the session depend on one another: a
    cached user is backed by a refresh token, and a refresh token by an
    access token. *)
Definition session_ordered (st : Storage) : Prop :=
  (stored "user" st -> stored "refresh_token" st)
  /\ (stored "refresh_token" st -> stored "access_token" st).

(** The request [login] issues for the credentials. *)
Definition login_request (username password : string) : Event :=
  Requested (API_BASE_URL +:+ "/auth/login")
    (VObj [("method", VStr "POST");
           ("headers", VObj [("Content-Type", VStr "application/json")]);
           ("body", stringify (VObj [("username", VStr username);
                                     ("password", VStr password)]))]).

(** What a server reads in the body [v] of a request. *)
Definition decoded (v : Value) : Parsed Value := JSON_parse (to_string v).

(** The value of a form field is a string, or [null] for a field the form
    does not have. *)
Definition is_entry (v : Value) : Prop :=
  match v with
  | VStr _ | VNull => True
  | _ => False
  end.

(** ** What JSON carries *)

(** The members [JSON.stringify] writes for the properties [ps]: a property
    whose value has no JSON text is left out. *)
Fixpoint written_members (ps : list (string * Value)) : list string :=
  match ps with
  | [] => []
  | (k, w) :: r =>
      match JSON_stringify w with
      | Some t => (quote_json k +:+ ":" +:+ t) :: written_members r
      | None => written_members r
      end
  end.

(** The numeral of [x] reads back as [x] where a member of an object ends.
    ECMAScript grants it for every finite number but [-0]; here it is a
    premise, which computation settles for a given number. *)
Definition reads_back_in_json (x : number) : Prop :=
  forall f c rest, c = ","%char \/ c = "}"%char ->
    JSON_stringify (VNum x) = Some (num_to_string x)
    /\ parse_value (S f) (num_to_string x +:+ String c rest)
       = Got (VNum x) (String c rest).

(** A value JSON carries unchanged as the property of a flat object:
    [null], a boolean, a string, a number whose numeral reads back; and
    [undefined], whose property is left out and reads as [undefined]
    again. *)
Definition carried (v : Value) : Prop :=
  match v with
  | VUndefined | VNull | VBool _ | VStr _ => True
  | VNum x => reads_back_in_json x
  | VArr _ | VObj _ => False
  end.

(** The properties that are written. *)
Definition defined (kv : string * Value) : bool :=
  match kv.2 with
  | VUndefined => false
  | _ => true
  end.

(** The object [JSON.parse] builds from members read in order. *)
Definition collected (ps acc : list (string * Value)) : list (string * Value) :=
  fold_left (fun a kv => set_prop kv.1 kv.2 a) ps acc.

(** The text of one member. *)
Definition member_text (kv : string * Value) : string :=
  quote_json kv.1 +:+ ":" +:+ default EmptyString (JSON_stringify kv.2).

(** What the handler submits for the entries [formData]. *)
Definition patientData_of (formData : list (string * string)) : Value :=
  VObj [("first_name", PatientPage.get formData "firstName");
        ("last_name", PatientPage.get formData "lastName");
        ("date_of_birth", PatientPage.get formData "dateOfBirth");
        ("gender", PatientPage.get formData "gender");
        ("email", PatientPage.get formData "email");
        ("phone", PatientPage.get formData "phone");
        ("address", PatientPage.get formData "address");
        ("city", PatientPage.get formData "city");
        ("state", PatientPage.get formData "state");
        ("zip_code", PatientPage.get formData "zipCode");
        ("insurance_provider", PatientPage.get formData "insuranceProvider");
        ("insurance_id", PatientPage.get formData "insuranceId");
        ("emergency_contact_name", PatientPage.get formData "emergencyContactName");
        ("emergency_contact_phone", PatientPage.get formData "emergencyContactPhone")].

(** The options of the request that registers a patient. *)
Definition patient_options (formData : list (string * string)) : Value :=
  VObj [("method", VStr "POST");
        ("headers", VObj [("Content-Type", VStr "application/json")]);
        ("body", stringify (patientData_of formData))].

(** The first required field that is missing or empty, as the handler names
    it in its message. *)
Definition first_missing (formData : list (string * string)) : option string :=
  if negb (truthy (PatientPage.get formData "firstName")) then Some "first name"
  else if negb (truthy (PatientPage.get formData "lastName")) then Some "last name"
  else if negb (truthy (PatientPage.get formData "dateOfBirth")) then Some "date of_birth"
  else None.

(** The page with its button as it was before the submission. *)
Definition restored (page : PatientPage.t) (formData : list (string * string))
  : PatientPage.t :=
  {| PatientPage.entries := formData; PatientPage.disabled := false;
     PatientPage.textContent := PatientPage.textContent page |}.



(** The alerts among the events of a run. *)
Definition alerts (events : list Event) : list Event :=
  List.filter (fun e => match e with Alerted _ _ => true | _ => false end) events.


(** ** Tokens, options and the moments of a stretch *)







(** The store each event of a stretch finds: what is stored at the moment
    the request is sent, the alert shown or the page left. *)
Fixpoint witnessed {A : Type} (now : Z) (t : Async A) (st : Storage)
  : list (Event * Storage) :=
  match t with
  | Return _ | Throw _ | Unmodelled => []
  | GetItem key k => witnessed now (k (storage_getItem st key)) st
  | SetItem key v k =>
      match storage_setItem st key v with
      | inr st' => witnessed now (k None) st'
      | inl e => witnessed now (k (Some e)) st
      end
  | RemoveItem key k => witnessed now k (storage_removeItem st key)
  | DateNow k => witnessed now (k now) st
  | Emit e k => (e, st) :: witnessed now k st
  | Fetch url o _ => [(Requested url o, st)]
  | AwaitJson _ _ => []
  | Spawn t' k =>
      match step_next (drive now t' st) with
      | Stuck => witnessed now t' st
      | _ => witnessed now t' st ++ witnessed now k (step_store (drive now t' st))
      end
  end.

(** ** Sample data of the witnesses *)


(** A patient form with the required fields and an empty email, and the
    same form without a date of birth. *)
Definition sample_patient_page : PatientPage.t :=
  {| PatientPage.entries :=
       [("firstName", "Ada"); ("lastName", "Lovelace"); ("dateOfBirth", "1815-12-10");
        ("gender", "Female"); ("email", "")];
     PatientPage.disabled := false;
     PatientPage.textContent := "Register Patient" |}.

Definition undated_patient_page : PatientPage.t :=
  {| PatientPage.entries := [("firstName", "Ada"); ("lastName", "Lovelace");
                             ("dateOfBirth", "")];
     PatientPage.disabled := false;
     PatientPage.textContent := "Register Patient" |}.

(** The texts of the platform's exceptions, for the examples. *)
Definition sample_messages (e : Exn) : string :=
  match e with
  | TypeError => "Failed to fetch"
  | _ => "Unexpected token"
  end.






(* ===================================================================== *)
(** * Part VI. Properties *)
(* ===================================================================== *)

Arguments to_string : simpl never.
Arguments stringify : simpl never.
Arguments num_mul : simpl never.
Arguments num_of_Z : simpl never.
Arguments to_number : simpl never.
Arguments JSON_parse : simpl never.
Arguments atob : simpl never.
Arguments split : simpl never.
Arguments String.append : simpl never.
Arguments storage_setItem : simpl never.
Arguments storage_removeItem : simpl never.
Arguments storage_getItem : simpl never.

(** ** The store *)

Lemma setItem_items st key v st' :
  storage_setItem st key v = inr st' ->
  items st' = <[key := v]> (items st) /\ quota st' = quota st.
Proof.
  unfold storage_setItem. case_match; intros [= <-]; done.
Qed.

Lemma setItem_stored st key v st' :
  storage_setItem st key v = inr st' -> stored key st'.
Proof.
  intros H. apply setItem_items in H as [H _]. unfold stored.
  rewrite H, lookup_insert_eq. eauto.
Qed.

Lemma setItem_other st key v st' key' :
  storage_setItem st key v = inr st' -> key <> key' ->
  items st' !! key' = items st !! key'.
Proof.
  intros H Hne. apply setItem_items in H as [H _].
  by rewrite H, lookup_insert_ne.
Qed.

Lemma removeItem_same st key : items (storage_removeItem st key) !! key = None.
Proof. unfold storage_removeItem; cbn. apply lookup_delete_eq. Qed.

Lemma removeItem_other st key key' :
  key <> key' -> items (storage_removeItem st key) !! key' = items st !! key'.
Proof. intros. unfold storage_removeItem; cbn. by apply lookup_delete_ne. Qed.

Lemma wiped_cleared st : cleared (wiped st).
Proof.
  unfold cleared, wiped. repeat split.
  - rewrite !removeItem_other by done. apply removeItem_same.
  - rewrite removeItem_other by done. apply removeItem_same.
  - apply removeItem_same.
Qed.

Lemma cleared_wiped st :
  cleared (storage_removeItem (storage_removeItem (storage_removeItem st "access_token")
                                 "refresh_token") "user").
Proof. apply (wiped_cleared st). Qed.

(** ** Soundness of [keeps] *)

Section InvariantFacts.
Variable Inv : Storage -> Prop.

Lemma keeps_drive {A : Type} (t : Async A) :
  forall now st (Q : Storage -> Prop),
    keeps Inv t st Q ->
    step_next (drive now t st) <> Stuck ->
    Q (step_store (drive now t st))
    /\ Forall (safe Inv) (step_spawned (drive now t st))
    /\ safe_next Inv (step_next (drive now t st)).
Proof.
  induction t; intros now st Q HK HS; cbn in *.
  - auto.
  - auto.
  - auto.
  - eauto.
  - destruct (storage_setItem st key value); eauto.
  - eauto.
  - eauto.
  - eauto.
  - destruct HK as [HQ HK]. repeat split; auto.
  - destruct HK as [HQ HK]. repeat split; auto.
    intros o st' Hst'. cbn. auto.
  - destruct (step_next (drive now t1 st)) eqn:E; cbn in *; [| done |].
    + apply (IHt1 now) in HK as (HK & Hsp1 & Hn1); [|congruence].
      apply (IHt2 now) in HK as (HQ & Hsp2 & Hn2); [|done].
      repeat split; auto. apply Forall_app; auto.
    + apply (IHt1 now) in HK as (HK & Hsp1 & Hn1); [|congruence].
      rewrite E in Hn1.
      apply (IHt2 now) in HK as (HQ & Hsp2 & Hn2); [|done].
      repeat split; auto. apply Forall_app; split; auto.
Qed.

Lemma after_ok (s : Step bool) pool :
  Inv (step_store s) -> Forall (safe Inv) (step_spawned s) ->
  safe_next Inv (step_next s) -> Forall (safe Inv) pool ->
  config_ok Inv (after s pool).
Proof.
  intros HI Hsp Hn Hpool. split; [done|]. cbn.
  apply Forall_app; split; [done|]. apply Forall_app; split; [done|].
  destruct (step_next s); cbn in *; auto.
Qed.

(** An invariant of the empty store that every operation keeps holds in
    every reachable configuration. *)
Lemma reachable_ok q :
  Inv (empty_storage q) ->
  (forall op st, Inv st -> keeps Inv (body_of op) st Inv) ->
  forall c, reachable q c -> config_ok Inv c.
Proof.
  intros H0 Hops c Hc. induction Hc as [|c c' Hc [HI Hpool] Hturn].
  - split; [done|]. constructor.
  - destruct Hturn as [op now c HS|now st before p behind o HS].
    + destruct (keeps_drive (body_of op) now (cstore c) Inv) as (? & ? & ?); auto.
      apply after_ok; auto.
    + cbn in *. apply Forall_app in Hpool as [Hb Hpb].
      apply Forall_cons in Hpb as [Hp Hbe].
      destruct (keeps_drive (resume p o) now st Inv) as (? & ? & ?); auto.
      apply after_ok; auto. apply Forall_app; auto.
Qed.
End InvariantFacts.

(** ** A cached user is backed by an access token *)

Lemma user_has_token_wiped st : user_has_token (wiped st).
Proof.
  intros [v Hv]. destruct (wiped_cleared st) as (_ & _ & Hu).
  unfold stored in *. congruence.
Qed.

Lemma user_has_token_set st key v st' :
  storage_setItem st key v = inr st' ->
  (key = "user" -> stored "access_token" st) ->
  user_has_token st -> user_has_token st'.
Proof.
  intros Hset Hkey Hinv Hu.
  destruct (decide (key = "access_token")) as [->|Hna].
  { eapply setItem_stored; eauto. }
  unfold stored. rewrite (setItem_other _ _ _ _ _ Hset Hna).
  destruct (decide (key = "user")) as [->|Hnu]; [by apply Hkey|].
  apply Hinv. unfold stored in *. by rewrite <- (setItem_other _ _ _ _ _ Hset Hnu).
Qed.

Ltac open_sources :=
  unfold body_of, forget, getCurrentUser, authFetch, isAuthenticated, refreshAccessToken,
    logout, login, register, withAuth, getAccessToken, getRefreshToken,
    localStorage_setItem, localStorage_removeItem, Date_now, fetch, json, call, prop,
    lift, parse, decode_base64, failure in *.

(** The test or scrutinee at the head of a computation. *)
Ltac head_scrutinee t :=
  lazymatch t with
  | bind ?t' _ => head_scrutinee t'
  | try_catch ?t' _ => head_scrutinee t'
  | (if negb ?b then _ else _) => b
  | (if ?b then _ else _) => b
  | (match ?x with _ => _ end) => x
  end.

Lemma stored_set_other st key v st' key' :
  storage_setItem st key v = inr st' -> key <> key' -> stored key' st -> stored key' st'.
Proof. intros H Hne. unfold stored. by rewrite (setItem_other _ _ _ _ _ H Hne). Qed.

Ltac stored_solve :=
  match goal with
  | H : storage_setItem _ ?k _ = inr ?s |- stored ?k ?s => exact (setItem_stored _ _ _ _ H)
  | H : storage_setItem _ _ _ = inr ?s |- stored _ ?s =>
      apply (stored_set_other _ _ _ _ _ H); [discriminate | stored_solve]
  end.

Ltac inv_solve :=
  match goal with
  | H : user_has_token ?s |- user_has_token ?s => exact H
  | |- user_has_token (storage_removeItem (storage_removeItem
         (storage_removeItem ?st _) _) _) => apply (user_has_token_wiped st)
  | H : storage_setItem _ _ _ = inr ?s |- user_has_token ?s =>
      apply (user_has_token_set _ _ _ _ H);
      [ intros; first [discriminate | stored_solve] | inv_solve ]
  end.

Ltac keeps_go :=
  repeat (cbn [keeps bind try_catch resume negb] in *;
          match goal with
          | |- _ /\ _ => split
          | |- forall _, _ => intro
          | |- user_has_token _ => inv_solve
          | |- keeps _ ?t _ _ => let x := head_scrutinee t in destruct x eqn:?
          | |- match storage_setItem ?st ?k ?v with _ => _ end =>
              destruct (storage_setItem st k v) eqn:?
          end).

(** Every operation, run from a store where a cached user is backed by an
    access token, ends each of its stretches in such a store. *)
Lemma op_keeps op st : user_has_token st -> keeps user_has_token (body_of op) st user_has_token.
Proof.
  intros HI. destruct op; open_sources.
  all: keeps_go.
Qed.

(** ** Reachable configurations *)

Lemma is_stuck_false {A : Type} (s : Susp A) : is_stuck s = false -> s <> Stuck.
Proof. by destruct s. Qed.

Lemma reachable_call q c op now : reachable q c -> reachable q (call_op op now c).
Proof.
  intros Hc. unfold call_op. cbv zeta.
  destruct (is_stuck _) eqn:E; [done|].
  eapply reachable_turn; [exact Hc|]. apply turn_call. by apply is_stuck_false.
Qed.

Lemma reachable_resume q c i o now : reachable q c -> reachable q (resume_at i o now c).
Proof.
  intros Hc. unfold resume_at.
  destruct (cpool c !! i) as [p|] eqn:Hp; [|done]. cbv zeta.
  destruct (is_stuck _) eqn:E; [done|].
  eapply reachable_turn; [exact Hc|].
  destruct c as [st pool]. cbn [cstore cpool] in *.
  rewrite <- (take_drop_middle pool i p Hp) at 1.
  apply turn_resume. by apply is_stuck_false.
Qed.

Lemma logged_in_reachable : reachable 4096 logged_in.
Proof.
  unfold logged_in. do 2 apply reachable_resume. apply reachable_call.
  apply reachable_start.
Qed.

Lemma refresh_overtaken_reachable : reachable 4096 refresh_overtaken_by_logout.
Proof.
  unfold refresh_overtaken_by_logout. do 3 apply reachable_resume.
  do 2 apply reachable_call. apply logged_in_reachable.
Qed.

(** C9, as amended. In every configuration a page can reach from the empty
    store, whatever calls of the session operations are in flight and
    however their turns interleave, and whether or not a write finds room,
    a cached user is backed by an access token. *)
Theorem cached_user_has_access_token (q : nat) (c : Config) :
  reachable q c -> stored "user" (cstore c) -> stored "access_token" (cstore c).
Proof.
  intros Hc. apply (reachable_ok user_has_token q); [| apply op_keeps | exact Hc].
  intros [v Hv]. discriminate.
Qed.

Lemma cached_user_has_access_token_witness : stored "access_token" (cstore logged_in).
Proof.
  apply (cached_user_has_access_token 4096 logged_in).
  - unfold logged_in. do 2 apply reachable_resume. apply reachable_call.
    apply reachable_start.
  - exists (to_string (stringify (profile sample_session))). vm_compute. reflexivity.
Defined.

(** C9, as stated, fails: when a logout completes while a refresh is in
    flight, the answer to the refresh writes an access token into a store
    that holds no cached user. *)
Lemma access_token_without_cached_user :
  ~ (forall c, reachable 4096 c ->
       (stored "access_token" (cstore c) <-> stored "user" (cstore c))).
Proof.
  intros H. specialize (H _ refresh_overtaken_reachable).
  assert (Ha : items (cstore refresh_overtaken_by_logout) !! "access_token" = Some "fresh")
    by (vm_compute; reflexivity).
  assert (Hu : items (cstore refresh_overtaken_by_logout) !! "user" = None)
    by (vm_compute; reflexivity).
  destruct H as [H _]. unfold stored in H. rewrite Ha, Hu in H.
  destruct H as [? ?]; [eauto|discriminate].
Qed.

(** The same store is reached by one login alone when the store has room
    for the access token only. *)
Lemma access_token_without_cached_user_by_quota :
  exists c, reachable 20 c
            /\ items (cstore c) !! "access_token" = Some "access"
            /\ items (cstore c) !! "user" = None.
Proof.
  exists (resume_at 0 Failed 0
            (resume_at 0 (answer sample_session) 0
               (call_op (OpLogin "alice" "secret") 0 (start 20)))).
  split; [|split; vm_compute; reflexivity].
  do 2 apply reachable_resume. apply reachable_call. apply reachable_start.
Qed.

(** ** The event loop, one case at a time *)

Lemma settle_finished {A : Type} f now net i st evs (r : Exn + A) pool :
  settle (S f) now net i st evs (Finished r) pool =
  match drain f now net i st evs pool with
  | Some d => Some {| final_store := final_store d; trace := trace d;
                      result := match result d with
                                | Resolved _ => settled r
                                | _ => Unknown
                                end |}
  | None => None
  end.
Proof. reflexivity. Qed.

Lemma settle_suspended {A : Type} f now net i st evs (p : Pending A) pool :
  settle (S f) now net i st evs (Suspended p) pool =
  settle f now net (if awaits_fetch p then S i else i)
    (step_store (drive now (resume p (net i)) st))
    (evs ++ step_events (drive now (resume p (net i)) st))
    (step_next (drive now (resume p (net i)) st))
    (pool ++ step_spawned (drive now (resume p (net i)) st)).
Proof. reflexivity. Qed.

Lemma drain_nil f now net i st evs :
  drain (S f) now net i st evs [] =
  Some {| final_store := st; trace := evs; result := Resolved tt |}.
Proof. reflexivity. Qed.

Lemma drain_cons f now net i st evs p rest :
  drain (S f) now net i st evs (p :: rest) =
  match step_next (drive now (resume p (net i)) st) with
  | Stuck => Some {| final_store := step_store (drive now (resume p (net i)) st);
                     trace := evs ++ step_events (drive now (resume p (net i)) st);
                     result := Unknown |}
  | Finished _ =>
      drain f now net (if awaits_fetch p then S i else i)
        (step_store (drive now (resume p (net i)) st))
        (evs ++ step_events (drive now (resume p (net i)) st))
        (rest ++ step_spawned (drive now (resume p (net i)) st))
  | Suspended p' =>
      drain f now net (if awaits_fetch p then S i else i)
        (step_store (drive now (resume p (net i)) st))
        (evs ++ step_events (drive now (resume p (net i)) st))
        (rest ++ step_spawned (drive now (resume p (net i)) st) ++ [p'])
  end.
Proof. reflexivity. Qed.

Arguments settle : simpl never.
Arguments drain : simpl never.

(** The test or scrutinee at the head of the stretch being run. *)
Ltac run_scrutinee g :=
  lazymatch g with
  | context [drive _ ?t _] => head_scrutinee t
  end.

Lemma to_string_str s : to_string (VStr s) = s.
Proof. reflexivity. Qed.

(** Rewriting with what is known of the store, the responses and the values. *)
Ltac use_facts :=
  match goal with
  | H : storage_getItem ?st ?k = _ |- context [storage_getItem ?st ?k] => rewrite H
  | H : truthy ?v = _ |- context [truthy ?v] => rewrite H
  | H : ok ?r = _ |- context [ok ?r] => rewrite H
  | H : body ?r = _ |- context [body ?r] => rewrite H
  | H : get_prop ?v ?k = _ |- context [get_prop ?v ?k] => rewrite H
  | H : storage_setItem ?st ?k ?v = _ |- context [storage_setItem ?st ?k ?v] => rewrite H
  | H : Z.eqb ?a ?b = _ |- context [Z.eqb ?a ?b] => rewrite H
  | H : JSON_parse ?t = _ |- context [JSON_parse ?t] => rewrite H
  | H : atob ?t = _ |- context [atob ?t] => rewrite H
  | H : ?x = Responded _ |- context [?x] => rewrite H
  | H : ?x = Failed |- context [?x] => rewrite H
  | |- context [to_string (VStr ?s)] => rewrite (to_string_str s)
  end.

Ltac drive_go :=
  repeat first
    [ progress cbn [drive resume bind try_catch item truthy negb
                    step_store step_events step_spawned step_next app] in *
    | use_facts
    | match goal with
      | |- context [match storage_setItem ?st ?k ?v with _ => _ end] =>
          destruct (storage_setItem st k v) eqn:?
      | |- ?g => let x := run_scrutinee g in destruct x eqn:?
      end ].

Ltac run_go :=
  repeat first
    [ progress cbn [drive resume awaits_fetch bind try_catch settled item truthy negb
                    step_store step_events step_spawned step_next
                    final_store trace result app] in *
    | rewrite settle_finished
    | rewrite settle_suspended
    | rewrite drain_nil
    | rewrite drain_cons
    | use_facts
    | match goal with
      | |- context [match storage_setItem ?st ?k ?v with _ => _ end] =>
          destruct (storage_setItem st k v) eqn:?
      | |- ?g => let x := run_scrutinee g in destruct x eqn:?
      end ].

(** ** Values with readable properties *)

Lemma readable_get_prop data key : readable data = true -> get_prop data key = inr (field data key).
Proof. unfold field. destruct data; cbn; intros; done. Qed.

Lemma unreadable_get_prop data key : readable data = false -> get_prop data key = inl TypeError.
Proof. destruct data; cbn; intros; done. Qed.

(** ** A refresh that succeeds, read from the response *)


(** ** Numbers *)

Lemma SFcompare_antisym x y c :
  SFcompare x y = Some c -> SFcompare y x = Some (CompOpp c).
Proof.
  destruct x as [sx|sx| |sx mx ex], y as [sy|sy| |sy my ey]; cbn;
    try discriminate; try (intros [= <-]; repeat case_match; reflexivity).
  destruct sx, sy; intros [= <-]; try reflexivity.
  - rewrite (Z.compare_antisym ey ex). destruct (ey ?= ex)%Z; cbn; try reflexivity.
    rewrite (ZC4 mx my). by destruct (Pos.compare_cont Eq my mx).
  - rewrite (Z.compare_antisym ey ex). destruct (ey ?= ex)%Z; cbn; try reflexivity.
    rewrite (ZC4 mx my). by destruct (Pos.compare_cont Eq my mx).
Qed.

Lemma num_lt_le x y : num_lt x y = true -> num_le x y = true.
Proof. unfold num_lt, num_le, SFltb, SFleb. repeat case_match; congruence. Qed.

Lemma num_lt_not_ge x y : num_lt x y = true -> num_le y x = false.
Proof.
  unfold num_lt, num_le, SFltb, SFleb.
  destruct (SFcompare x y) as [[]|] eqn:E; try discriminate.
  intros _. by rewrite (SFcompare_antisym _ _ _ E).
Qed.

Lemma num_eq_le x y : SFeqb x y = true -> num_le x y = true.
Proof. unfold SFeqb, num_le, SFleb. repeat case_match; congruence. Qed.

(** ** [isAuthenticated], one stretch *)

Lemma isAuthenticated_cases st now token :
  storage_getItem st "access_token" = Some token -> token <> "" ->
  let s := drive now isAuthenticated st in
  step_store s = st /\
  match token_payload token with
  | Beyond => step_next s = Stuck
  | Bad => step_next s = Finished (inr false) /\ step_events s = [logout_request st]
           /\ length (step_spawned s) = 1
  | Got payload _ =>
      match get_prop payload "exp" with
      | inl _ => step_next s = Finished (inr false) /\ step_events s = [logout_request st]
                 /\ length (step_spawned s) = 1
      | inr exp =>
          if num_le (expiryTime exp) (num_of_Z now) then
            step_next s = Finished (inr false) /\ length (step_spawned s) = 1 /\
            step_events s = [if holds "refresh_token" st then refresh_request st
                             else logout_request st]
          else step_next s = Finished (inr true) /\ step_events s = []
               /\ step_spawned s = []
      end
  end.
Proof.
  intros Htok Hne. destruct token as [|c token]; [done|].
  unfold token_payload, expiryTime, holds, logout_request, refresh_request, logout_url, refresh_url.
  open_sources. drive_go; rewrite ?Htok; auto.
Qed.

(** ** [isAuthenticated] *)

Lemma isAuthenticated_without_token st now :
  holds "access_token" st = false ->
  drive now isAuthenticated st =
  {| step_store := st; step_events := []; step_spawned := [];
     step_next := Finished (inr false) |}.
Proof.
  intros Hno. unfold holds in Hno. open_sources. drive_go. reflexivity.
Qed.

Lemma holds_stored st key :
  holds key st = true -> exists text, storage_getItem st key = Some text /\ text <> "".
Proof.
  unfold holds. destruct (storage_getItem st key) as [[|c t]|]; try discriminate.
  intros _. by eexists.
Qed.

(** ** [isAuthenticated], run until nothing is pending *)






(** C2 fails on the code. A token whose payload has no [exp] claim is
    reported valid: [undefined * 1000] is [NaN], and [Date.now() >= NaN] is
    false. Nothing is sent and nothing is started: no logout. *)
Theorem isAuthenticated_accepts_token_without_exp (now : Z) :
  (exists rest, token_payload token_without_exp = Got (VObj []) rest) /\
  drive now isAuthenticated (store_of [("access_token", token_without_exp)]) =
  {| step_store := store_of [("access_token", token_without_exp)];
     step_events := []; step_spawned := []; step_next := Finished (inr true) |}.
Proof.
  split; [eexists; vm_compute; reflexivity|]. vm_compute. reflexivity.
Qed.

(** The defect behind C2 in general: whatever the payload, when it has
    no [exp] property the token is reported valid and nothing is started. *)
Lemma isAuthenticated_accepts_payload_without_exp
    (st : Storage) (now : Z) (token : string) (props : list (string * Value))
    (rest : string) :
  storage_getItem st "access_token" = Some token -> token <> "" ->
  token_payload token = Got (VObj props) rest -> lookup_prop "exp" props = None ->
  drive now isAuthenticated st =
  {| step_store := st; step_events := []; step_spawned := [];
     step_next := Finished (inr true) |}.
Proof.
  intros Htok Hne Hpay Hexp.
  destruct (isAuthenticated_cases st now token Htok Hne) as [Hst H].
  rewrite Hpay in H. cbn [get_prop] in H. rewrite Hexp in H.
  change (num_le (expiryTime VUndefined) (num_of_Z now)) with false in H.
  destruct H as (Hn & He & Hs).
  destruct (drive now isAuthenticated st); cbn in *. congruence.
Qed.

Lemma isAuthenticated_accepts_payload_without_exp_witness :
  step_next (drive 0 isAuthenticated (store_of [("access_token", token_without_exp)]))
  = Finished (inr true).
Proof.
  rewrite (isAuthenticated_accepts_payload_without_exp
             (store_of [("access_token", token_without_exp)]) 0 token_without_exp
             [] EmptyString);
    first [reflexivity | discriminate].
Defined.

(** The part of C2 the code does keep: a token that [atob] or [JSON.parse]
    rejects, and a payload that is [null], is reported invalid; a logout is
    started, and when its request has settled none of the three keys is
    left in the store. *)
Lemma isAuthenticated_rejects_undecodable_token
    (st : Storage) (now : Z) (net : nat -> FetchOutcome) (fuel : nat) (token : string) :
  storage_getItem st "access_token" = Some token -> token <> "" ->
  (token_payload token = Bad \/ exists rest, token_payload token = Got VNull rest) ->
  (3 <= fuel)%nat ->
  step_events (drive now isAuthenticated st) = [logout_request st]
  /\ exists f,
       run fuel now net isAuthenticated st = Some f
       /\ result f = Resolved false /\ cleared (final_store f).
Proof.
  intros Htok Hne Hbad Hfuel.
  destruct (isAuthenticated_cases st now token Htok Hne) as [_ H].
  split.
  { destruct Hbad as [Hb|[rest Hb]]; rewrite Hb in H; cbn [get_prop] in H; tauto. }
  clear H. destruct token as [|c token]; [done|].
  destruct fuel as [|[|[|fuel]]]; try lia.
  unfold token_payload in Hbad. unfold run. open_sources.
  destruct (atob (to_string (index (split "." (String c token)) 1))) as [text|] eqn:Hatob.
  - destruct (JSON_parse text) as [payload rest| |] eqn:Hparse.
    + destruct Hbad as [Hb|[rest' Hb]]; [discriminate|]. injection Hb as -> ->.
      assert (Hnull : get_prop VNull "exp" = inl TypeError) by reflexivity.
      run_go; eexists; repeat split; try reflexivity; apply cleared_wiped.
    + run_go; eexists; repeat split; try reflexivity; apply cleared_wiped.
    + destruct Hbad as [Hb|[rest' Hb]]; discriminate.
  - run_go; eexists; repeat split; try reflexivity; apply cleared_wiped.
Qed.

Lemma isAuthenticated_rejects_undecodable_token_witness :
  exists f,
    run 3 0 unreachable isAuthenticated (store_of [("access_token", "not-a-token")])
    = Some f
    /\ result f = Resolved false /\ cleared (final_store f).
Proof.
  refine (proj2 (isAuthenticated_rejects_undecodable_token
            (store_of [("access_token", "not-a-token")]) 0 unreachable 3
            "not-a-token" _ _ _ _));
    first [discriminate | lia | left; vm_compute; reflexivity | vm_compute; reflexivity].
Defined.

(** C8 fails on the code. The token of Zoë is well formed, its [exp] claim
    is the first of January 2100, and the check made in November 2023
    reports it invalid and starts a logout: [atob] reads the standard
    alphabet of base64, and rejects the [_] of base64url. *)
Theorem isAuthenticated_rejects_base64url_token :
  well_formed_exp token_of_zoe = Some (num_of_Z 4102444800)
  /\ num_lt (num_of_Z 1700000000000)
        (num_mul (num_of_Z 4102444800) (num_of_Z 1000)) = true
  /\ token_payload token_of_zoe = Bad
  /\ step_next (drive 1700000000000 isAuthenticated
                  (store_of [("access_token", token_of_zoe)])) = Finished (inr false)
  /\ step_events (drive 1700000000000 isAuthenticated
                    (store_of [("access_token", token_of_zoe)]))
     = [logout_request (store_of [("access_token", token_of_zoe)])].
Proof.
  repeat split; vm_compute; reflexivity.
Qed.

(** The comparison itself is as C8 says, for a token the code can decode:
    with [exp * 1000] before the current time, or equal to it, the check
    reports invalid; with [exp * 1000] after it, valid. *)
Lemma isAuthenticated_compares_expiry
    (st : Storage) (now : Z) (token : string) (payload : Value) (rest : string)
    (exp : number) :
  storage_getItem st "access_token" = Some token -> token <> "" ->
  token_payload token = Got payload rest ->
  get_prop payload "exp" = inr (VNum exp) ->
  let expiry := num_mul exp (num_of_Z 1000) in
  let valid := step_next (drive now isAuthenticated st) in
  (num_lt expiry (num_of_Z now) = true -> valid = Finished (inr false)) /\
  (SFeqb expiry (num_of_Z now) = true -> valid = Finished (inr false)) /\
  (num_lt (num_of_Z now) expiry = true -> valid = Finished (inr true)).
Proof.
  intros Htok Hne Hpay Hexp. cbv zeta.
  destruct (isAuthenticated_cases st now token Htok Hne) as [_ H].
  rewrite Hpay, Hexp in H. unfold expiryTime in H.
  change (to_number (VNum exp)) with exp in H.
  repeat split; intros Hcmp.
  - apply num_lt_le in Hcmp. rewrite Hcmp in H. tauto.
  - apply num_eq_le in Hcmp. rewrite Hcmp in H. tauto.
  - apply num_lt_not_ge in Hcmp. rewrite Hcmp in H. tauto.
Qed.

Lemma isAuthenticated_compares_expiry_witness :
  step_next (drive 1699999999999 isAuthenticated
               (store_of [("access_token", token_expiring_2023)]))
  = Finished (inr true).
Proof.
  refine (proj2 (proj2 (isAuthenticated_compares_expiry
            (store_of [("access_token", token_expiring_2023)]) 1699999999999
            token_expiring_2023
            (VObj [("exp", VNum (num_of_Z 1700000000))]) EmptyString
            (num_of_Z 1700000000) _ _ _ _)) _);
    first [discriminate | vm_compute; reflexivity].
Defined.

(** ** [refreshAccessToken] *)







(** ** [login] *)

Lemma login_run username password st now net fuel :
  (4 <= fuel)%nat ->
  exists f,
    run fuel now net (login username password) st = Some f /\
    match net 0 with
    | Failed => final_store f = st /\ result f = Resolved network_error
    | Responded r =>
        match body r with
        | None => final_store f = st /\ result f = Resolved network_error
        | Some data =>
            if readable data then
              if ok r then
                match storage_setItem st "access_token"
                        (to_string (field data "access_token")) with
                | inl _ => final_store f = st /\ result f = Resolved network_error
                | inr st1 =>
                    match storage_setItem st1 "refresh_token"
                            (to_string (field data "refresh_token")) with
                    | inl _ => final_store f = st1 /\ result f = Resolved network_error
                    | inr st2 =>
                        match storage_setItem st2 "user"
                                (to_string (stringify (profile data))) with
                        | inl _ => final_store f = st2 /\ result f = Resolved network_error
                        | inr st3 =>
                            final_store f = st3 /\
                            result f = Resolved (VObj [("success", VBool true);
                                                       ("user", profile data)])
                        end
                    end
                end
              else final_store f = st /\
                   result f = Resolved (failure (or_else (field data "error")
                                                   (VStr "Login failed")))
            else final_store f = st /\ result f = Resolved network_error
        end
    end.
Proof.
  intros Hfuel. destruct fuel as [|[|[|[|fuel]]]]; try lia.
  unfold run, network_error, profile.
  destruct (net 0) as [r|] eqn:Hnet;
    [destruct (body r) as [data|] eqn:Hbody; [destruct (readable data) eqn:Hread|]|].
  - pose proof (readable_get_prop data "error" Hread).
    pose proof (readable_get_prop data "access_token" Hread).
    pose proof (readable_get_prop data "refresh_token" Hread).
    pose proof (readable_get_prop data "user_id" Hread).
    pose proof (readable_get_prop data "username" Hread).
    pose proof (readable_get_prop data "first_name" Hread).
    pose proof (readable_get_prop data "last_name" Hread).
    pose proof (readable_get_prop data "role" Hread).
    open_sources. run_go; eexists; (split; [reflexivity|]); split; reflexivity.
  - pose proof (unreadable_get_prop data "error" Hread).
    pose proof (unreadable_get_prop data "access_token" Hread).
    open_sources. run_go; eexists; (split; [reflexivity|]); split; reflexivity.
  - open_sources. run_go; eexists; (split; [reflexivity|]); split; reflexivity.
  - open_sources. run_go; eexists; (split; [reflexivity|]); split; reflexivity.
Qed.




(** ** Sequencing *)

Lemma prepend_nothing {A B : Type} st (a : A) (s : Step B) :
  prepend {| step_store := st; step_events := []; step_spawned := [];
             step_next := Finished (inr a) |} s = s.
Proof. by destruct s. Qed.

Lemma drive_bind {A B : Type} (t : Async A) (f : A -> Async B) now :
  forall st,
    drive now (bind t f) st =
    match step_next (drive now t st) with
    | Finished (inr a) =>
        prepend (drive now t st) (drive now (f a) (step_store (drive now t st)))
    | Finished (inl e) => retag (drive now t st) (Finished (inl e))
    | Stuck => retag (drive now t st) Stuck
    | Suspended p => retag (drive now t st) (Suspended (bind_pending p f))
    end.
Proof.
  induction t; intros st; cbn [bind drive step_next step_store].
  - by rewrite prepend_nothing.
  - reflexivity.
  - reflexivity.
  - auto.
  - destruct (storage_setItem st key value); auto.
  - auto.
  - auto.
  - rewrite IHt. by destruct (step_next (drive now t st)) as [[e'|a]| |p].
  - reflexivity.
  - reflexivity.
  - rewrite IHt2.
    destruct (step_next (drive now t1 st)) as [r| |p]; [| reflexivity |];
      cbn [step_next step_store];
      destruct (step_next (drive now t2 (step_store (drive now t1 st)))) as [[e'|a]| |q];
      unfold retag, prepend; cbn [step_store step_events step_spawned step_next];
      rewrite <- ?app_assoc; reflexivity.
Qed.

(** A synchronous call that returns [a] passes [a] on. *)
Lemma drive_bind_returns {A B : Type} (t : Async A) (f : A -> Async B) st a now :
  returns t st a -> drive now (bind t f) st = drive now (f a) st.
Proof.
  intros Hret. rewrite drive_bind, (Hret now). cbn [step_next step_store].
  apply prepend_nothing.
Qed.

(** ** [withAuth] and [authFetch] *)






(** ** Properties of property lists *)

Lemma lookup_set_prop_eq key v props : lookup_prop key (set_prop key v props) = Some v.
Proof.
  induction props as [|[k w] props IH]; cbn.
  - by rewrite String.eqb_refl.
  - destruct (String.eqb k key) eqn:E; cbn; rewrite E; auto.
Qed.

Lemma lookup_set_prop_ne key key' v props :
  key <> key' -> lookup_prop key' (set_prop key v props) = lookup_prop key' props.
Proof.
  intros Hne. induction props as [|[k w] props IH]; cbn.
  - destruct (String.eqb key key') eqn:E; [|done]. by apply String.eqb_eq in E.
  - destruct (String.eqb k key) eqn:E; cbn.
    + apply String.eqb_eq in E as ->.
      destruct (String.eqb key key') eqn:E'; [|done]. by apply String.eqb_eq in E'.
    + by rewrite IH.
Qed.






(** ** [authFetch] for every value of its options *)






(** ** The role projector *)






(** The example of the specification: a nurse sees an element listing
    [nurse,admin] and not one listing [doctor,admin]. *)
Lemma project_nurse_example :
  project (VStr "nurse") {| roleAccess := "doctor,admin"; display := "" |}
  = {| roleAccess := "doctor,admin"; display := "none" |}
  /\ project (VStr "nurse") {| roleAccess := "nurse, admin"; display := "none" |}
     = {| roleAccess := "nurse, admin"; display := "" |}.
Proof. split; reflexivity. Qed.

(** ** The registration form *)

Lemma str_existsb_take_while p q s :
  str_existsb p (str_take_while q s) = true -> str_existsb p s = true.
Proof.
  induction s as [|c s IH]; cbn; [done|].
  destruct (q c); cbn; [|done].
  destruct (p c); cbn; auto.
Qed.

Lemma length_take_while q s : (String.length (str_take_while q s) <= String.length s)%nat.
Proof.
  induction s as [|c s IH]; cbn; [done|]. destruct (q c); cbn; lia.
Qed.

(** A password the regular expression accepts meets the composite policy. *)
Lemma passwordRegex_meets_policy pw :
  passwordRegex_test pw = true -> meets_policy pw = true.
Proof.
  unfold passwordRegex_test, meets_policy.
  rewrite !andb_true_iff. intros [[[Hu Hd] Hs] Hl].
  apply str_existsb_take_while in Hu, Hd, Hs. rewrite Hu, Hd, Hs.
  apply Nat.leb_le in Hl.
  pose proof (length_take_while (fun c => negb (is_line_terminator c)) pw).
  repeat split; try done. apply Nat.leb_le. lia.
Qed.

(** C4, as amended. The submit handler of the registration form rejects a
    user name shorter than 5 characters, a password that does not meet the
    composite policy and a confirmation that differs from the password: it
    shows one alert and sends nothing. When the user name is long enough and
    the password does not meet the policy, the alert cites the policy. *)
Theorem registerForm_rejects_before_any_request
    (form : RegisterForm) (st : Storage) (now : Z) :
  ((String.length (username form) < 5)%nat \/ meets_policy (password form) = false
   \/ password form <> confirmPassword form) ->
  exists message,
    drive now (registerForm_submit form) st =
    {| step_store := st; step_events := [Alerted "danger" message];
       step_spawned := []; step_next := Finished (inr tt) |} /\
    ((5 <= String.length (username form))%nat -> meets_policy (password form) = false ->
     message = policy_message).
Proof.
  intros Hbad. unfold registerForm_submit, showAlert.
  destruct (String.length (username form) <? 5)%nat eqn:Hu.
  - eexists. split; [reflexivity|]. apply Nat.ltb_lt in Hu. lia.
  - destruct (passwordRegex_test (password form)) eqn:Hp; cbn [negb].
    + apply passwordRegex_meets_policy in Hp.
      destruct (String.eqb (password form) (confirmPassword form)) eqn:Hc; cbn [negb].
      * apply String.eqb_eq in Hc. apply Nat.ltb_ge in Hu.
        destruct Hbad as [?|[?|?]]; [lia|congruence|done].
      * eexists. split; [reflexivity|]. congruence.
    + eexists. split; [reflexivity|]. done.
Qed.

Lemma registerForm_rejects_before_any_request_witness :
  exists message,
    drive 0 (registerForm_submit weak_form) (empty_storage 0) =
    {| step_store := empty_storage 0; step_events := [Alerted "danger" message];
       step_spawned := []; step_next := Finished (inr tt) |} /\
    message = policy_message.
Proof.
  destruct (registerForm_rejects_before_any_request weak_form (empty_storage 0) 0)
    as (message & Hrun & Hmsg).
  - right. left. reflexivity.
  - exists message. split; [exact Hrun|]. apply Hmsg; [cbn; lia | reflexivity].
Defined.

(** C4, as stated, fails: [register] itself validates nothing. Called with
    the password [abc] it sends the registration request; and [login] sends
    its request for a user name of three characters. *)
Lemma register_sends_weak_password :
  meets_policy "abc" = false
  /\ step_events (drive 0 (register weak_registration) (empty_storage 0))
     = [Requested register_url
          (VObj [("method", VStr "POST");
                 ("headers", VObj [("Content-Type", VStr "application/json")]);
                 ("body", stringify weak_registration)])]
  /\ exists options,
       step_events (drive 0 (login "abc" "x") (empty_storage 0))
       = [Requested (API_BASE_URL +:+ "/auth/login") options].
Proof.
  split; [reflexivity|]. split; [reflexivity|]. eexists. reflexivity.
Qed.

(* ===================================================================== *)
(** * Part VII. Properties of the rest of the front end *)
(* ===================================================================== *)

(** ** [logout] *)

Lemma wiped_other st key : ~ session_key key -> items (wiped st) !! key = items st !! key.
Proof.
  intros Hk. unfold wiped, session_key in *.
  rewrite !removeItem_other; [done|..]; intros <-; tauto.
Qed.

(** [logout] always ends with [true] and a store without the three keys of
    the session, whatever the server answers and even when it cannot be
    reached; the other keys of the store keep their values. It sends one
    request, carrying the access token, when a token is held, and none
    otherwise. *)
Theorem logout_clears_session_whatever_the_server
    (st : Storage) (now : Z) (net : nat -> FetchOutcome) (fuel : nat) :
  (3 <= fuel)%nat ->
  exists f,
    run fuel now net logout st = Some f
    /\ result f = Resolved true
    /\ trace f = logout_requests st
    /\ final_store f = wiped st
    /\ cleared (final_store f)
    /\ (forall key, ~ session_key key ->
          items (final_store f) !! key = items st !! key).
Proof.
  intros Hfuel. destruct fuel as [|[|[|fuel]]]; try lia.
  unfold run, logout_requests, logout_request, logout_url, holds.
  open_sources. run_go.
  all: eexists; repeat split; try reflexivity; try apply cleared_wiped;
    intros; by apply wiped_other.
Qed.

Lemma logout_clears_session_whatever_the_server_witness :
  exists f,
    run 3 0 unreachable logout
      (store_of [("access_token", "t"); ("theme", "dark")]) = Some f
    /\ result f = Resolved true
    /\ items (final_store f) !! "access_token" = None
    /\ items (final_store f) !! "theme" = Some "dark".
Proof.
  destruct (logout_clears_session_whatever_the_server
              (store_of [("access_token", "t"); ("theme", "dark")]) 0 unreachable 3)
    as (f & Hrun & Hres & _ & _ & Hcl & Hother); [lia|].
  exists f. repeat split; [exact Hrun | exact Hres | apply Hcl |].
  rewrite Hother; [reflexivity|]. unfold session_key. intros [H|[H|H]]; discriminate.
Defined.

(** ** The store each event finds *)

(** [witnessed] lists the events of the stretch, in their order. *)
Lemma witnessed_events {A : Type} (t : Async A) now :
  forall st, map fst (witnessed now t st) = step_events (drive now t st).
Proof.
  induction t; intros st; cbn [witnessed drive step_events map]; auto.
  - destruct (storage_setItem st key value); auto.
  - by rewrite IHt.
  - destruct (step_next (drive now t1 st)) as [r| |p]; cbn [step_events];
      rewrite ?map_app, ?IHt1, ?IHt2; reflexivity.
Qed.

(** The click on [#logoutBtn]: the page leaves for the login page only after
    the logout request has settled and the three keys have been removed,
    whatever the server answered. With an access token held, the handler
    sends the logout request and is suspended, the store untouched and the
    page still there; resumed with the answer, it removes the three keys
    and then leaves. Without one it removes the keys and leaves at once. *)
Theorem logoutBtn_click_clears_then_navigates
    (st : Storage) (now : Z) (net : nat -> FetchOutcome) (fuel : nat) :
  (3 <= fuel)%nat ->
  (exists f,
     run fuel now net logoutBtn_click st = Some f
     /\ result f = Resolved tt
     /\ trace f = logout_requests st ++ [Navigated "login.html"]
     /\ final_store f = wiped st)
  /\ if holds "access_token" st then
       exists p,
         drive now logoutBtn_click st =
           {| step_store := st; step_events := [logout_request st]; step_spawned := [];
              step_next := Suspended p |}
         /\ awaits_fetch p = true
         /\ forall o now' st',
              drive now' (resume p o) st' =
                {| step_store := wiped st'; step_events := [Navigated "login.html"];
                   step_spawned := []; step_next := Finished (inr tt) |}
              /\ witnessed now' (resume p o) st' = [(Navigated "login.html", wiped st')]
     else
       drive now logoutBtn_click st =
         {| step_store := wiped st; step_events := [Navigated "login.html"];
            step_spawned := []; step_next := Finished (inr tt) |}
       /\ witnessed now logoutBtn_click st = [(Navigated "login.html", wiped st)].
Proof.
  intros Hfuel. split.
  - destruct fuel as [|[|[|fuel]]]; try lia.
    unfold run, logoutBtn_click, logout_requests, logout_request, logout_url, holds.
    open_sources. run_go.
    all: eexists; repeat split; reflexivity.
  - unfold logoutBtn_click, logout_request, logout_url, wiped, holds.
    open_sources.
    destruct (truthy (item (storage_getItem st "access_token"))) eqn:Hh.
    + drive_go. eexists. split; [reflexivity|]. split; [reflexivity|].
      intros o now' st'. cbn [resume]. by destruct o.
    + drive_go. split; [reflexivity|].
      cbn [witnessed bind try_catch]. rewrite Hh. reflexivity.
Qed.

Lemma logoutBtn_click_clears_then_navigates_witness :
  exists f,
    run 3 0 unreachable logoutBtn_click (store_of [("access_token", "t")]) = Some f
    /\ trace f = logout_requests (store_of [("access_token", "t")])
                 ++ [Navigated "login.html"]
    /\ final_store f = wiped (store_of [("access_token", "t")]).
Proof.
  destruct (logoutBtn_click_clears_then_navigates
              (store_of [("access_token", "t")]) 0 unreachable 3)
    as [(f & Hrun & _ & Htr & Hst) _]; [lia|].
  exists f. auto.
Defined.

(** ** [getCurrentUser] *)

(** A check that reports the token valid has done nothing else. *)
Lemma isAuthenticated_valid_is_silent st now :
  step_next (drive now isAuthenticated st) = Finished (inr true) ->
  drive now isAuthenticated st =
  {| step_store := st; step_events := []; step_spawned := [];
     step_next := Finished (inr true) |}
  /\ holds "access_token" st = true.
Proof.
  intros Hv. destruct (holds "access_token" st) eqn:Hh.
  - destruct (holds_stored _ _ Hh) as (token & Htok & Hne).
    destruct (isAuthenticated_cases st now token Htok Hne) as [Hst H].
    destruct (token_payload token) as [payload rest| |].
    + destruct (get_prop payload "exp") as [e|exp].
      * destruct H as (H & _). congruence.
      * destruct (num_le (expiryTime exp) (num_of_Z now)).
        -- destruct H as (H & _). congruence.
        -- destruct H as (_ & He & Hs). split; [|done].
           destruct (drive now isAuthenticated st); cbn in *. congruence.
    + destruct H as (H & _). congruence.
    + congruence.
  - rewrite (isAuthenticated_without_token st now Hh) in Hv. discriminate.
Qed.

(** [getCurrentUser] never throws. When the check reports the token
    invalid, it returns [null] at once and sends no request of its own:
    what has been sent and started is what the check sent and started.
    When the check reports the token valid, it sends one request to the
    user endpoint, carrying the access token, leaves the store as it is,
    and gives the body of a 2xx response; [null] when the response is
    outside 2xx, when its body cannot be read and when the request fails. *)
Theorem getCurrentUser_gives_user_or_null
    (st : Storage) (now : Z) (net : nat -> FetchOutcome) (fuel : nat) :
  (4 <= fuel)%nat ->
  (step_next (drive now isAuthenticated st) = Finished (inr false) ->
     drive now getCurrentUser st =
     retag (drive now isAuthenticated st) (Finished (inr VNull))) /\
  (step_next (drive now isAuthenticated st) = Finished (inr true) ->
     exists f,
       run fuel now net getCurrentUser st = Some f
       /\ trace f = [me_request st]
       /\ final_store f = st
       /\ result f = Resolved (user_data (net 0))).
Proof.
  intros Hfuel. split; intros Hv.
  - unfold getCurrentUser. rewrite drive_bind, Hv. cbn [negb drive].
    unfold prepend, retag. cbn [step_store step_events step_spawned step_next].
    by rewrite !app_nil_r.
  - destruct (isAuthenticated_valid_is_silent st now Hv) as [Hd Hh].
    destruct fuel as [|[|[|[|fuel]]]]; try lia.
    unfold run, getCurrentUser. rewrite drive_bind, Hd.
    cbn [step_next step_store negb]. rewrite prepend_nothing.
    unfold me_request, me_url, user_data, getAccessToken, fetch, json.
    run_go; eexists; repeat split; reflexivity.
Qed.

Lemma getCurrentUser_gives_user_or_null_witness :
  exists f,
    run 4 0 (always (VObj [("username", VStr "alice")])) getCurrentUser
      (store_of [("access_token", token_expiring_2023)]) = Some f
    /\ result f = Resolved (VObj [("username", VStr "alice")]).
Proof.
  destruct (proj2 (getCurrentUser_gives_user_or_null
                     (store_of [("access_token", token_expiring_2023)]) 0
                     (always (VObj [("username", VStr "alice")])) 4 ltac:(lia)))
    as (f & Hrun & _ & _ & Hres); [vm_compute; reflexivity|].
  exists f. split; [exact Hrun | exact Hres].
Defined.

(** ** [register] *)

(** [register] reads and writes nothing in the store, sends one request
    with the user data as JSON, and never throws: it gives
    [{success: true}] with a message for a 2xx response whose body can be
    read, the server's [error] (or a default message) for another response,
    and the network message when the request fails or the body cannot be
    read, whatever the status. *)
Theorem register_sends_once_and_never_throws
    (userData : Value) (st : Storage) (now : Z) (net : nat -> FetchOutcome)
    (fuel : nat) :
  (4 <= fuel)%nat ->
  exists f,
    run fuel now net (register userData) st = Some f
    /\ final_store f = st
    /\ trace f = [register_request userData]
    /\ result f = Resolved (registered (net 0)).
Proof.
  intros Hfuel. destruct fuel as [|[|[|[|fuel]]]]; try lia.
  unfold run, register_request, register_url, registered, network_error.
  open_sources. run_go; eexists; repeat split; reflexivity.
Qed.

Lemma register_sends_once_and_never_throws_witness :
  exists f,
    run 4 0 unreachable (register weak_registration) (empty_storage 0) = Some f
    /\ final_store f = empty_storage 0
    /\ result f = Resolved network_error.
Proof.
  destruct (register_sends_once_and_never_throws weak_registration (empty_storage 0)
              0 unreachable 4) as (f & Hrun & Hst & _ & Hres); [lia|].
  exists f. auto.
Defined.

(** ** The registration form, accepted *)

(** [run_go], reading the properties of objects that are written out. *)
Ltac run_known :=
  repeat first
    [ progress cbn [drive resume awaits_fetch bind try_catch settled item truthy negb
                    step_store step_events step_spawned step_next
                    final_store trace result app
                    get_prop lookup_prop default from_option id or_empty
                    String.eqb Ascii.eqb Bool.eqb] in *
    | rewrite settle_finished
    | rewrite settle_suspended
    | rewrite drain_nil
    | rewrite drain_cons
    | use_facts
    | match goal with
      | |- context [match storage_setItem ?st ?k ?v with _ => _ end] =>
          destruct (storage_setItem st k v) eqn:?
      | |- ?g => let x := run_scrutinee g in destruct x eqn:?
      end ].



(** ** The page gates *)

Lemma isAuthenticated_keeps_store st now :
  step_next (drive now isAuthenticated st) <> Stuck ->
  step_store (drive now isAuthenticated st) = st.
Proof.
  intros _. destruct (holds "access_token" st) eqn:Hh.
  - destruct (holds_stored _ _ Hh) as (token & Htok & Hne).
    by destruct (isAuthenticated_cases st now token Htok Hne) as [Hst _].
  - by rewrite (isAuthenticated_without_token st now Hh).
Qed.

(** [checkAuthentication] does nothing at all on a page whose path contains
    [login.html] or [register.html]: the token is not even looked at. On
    any other page it leaves for the login page exactly when
    [isAuthenticated] reports the token invalid, after whatever the check
    has sent; with no access token stored, the move to the login page is
    all that happens. *)
Theorem checkAuthentication_guards_protected_pages
    (pathname : string) (st : Storage) (now : Z) :
  let s := drive now isAuthenticated st in
  let quiet := {| step_store := st; step_events := []; step_spawned := [];
                  step_next := Finished (inr tt) |} in
  (is_public pathname = true -> drive now (checkAuthentication pathname) st = quiet) /\
  (is_public pathname = false ->
     (step_next s = Finished (inr true) ->
        drive now (checkAuthentication pathname) st = quiet) /\
     (step_next s = Finished (inr false) ->
        drive now (checkAuthentication pathname) st =
        {| step_store := st; step_events := step_events s ++ [Navigated "login.html"];
           step_spawned := step_spawned s; step_next := Finished (inr tt) |}) /\
     (holds "access_token" st = false ->
        step_events (drive now (checkAuthentication pathname) st)
        = [Navigated "login.html"])).
Proof.
  cbv zeta. unfold is_public, checkAuthentication. split; intros Hp; rewrite Hp.
  - reflexivity.
  - split; [|split].
    + intros Hv. destruct (isAuthenticated_valid_is_silent st now Hv) as [Hd _].
      rewrite drive_bind, Hd. reflexivity.
    + intros Hv. rewrite drive_bind, Hv. cbn [negb drive].
      unfold prepend. cbn [step_store step_events step_spawned step_next].
      rewrite app_nil_r, isAuthenticated_keeps_store by congruence. reflexivity.
    + intros Hh. rewrite drive_bind, (isAuthenticated_without_token st now Hh).
      reflexivity.
Qed.

Lemma checkAuthentication_guards_protected_pages_witness :
  drive 0 (checkAuthentication "/register.html") expired_session =
  {| step_store := expired_session; step_events := []; step_spawned := [];
     step_next := Finished (inr tt) |}
  /\ step_events (drive 0 (checkAuthentication "/patients.html") (empty_storage 0))
     = [Navigated "login.html"].
Proof.
  split.
  - apply (proj1 (checkAuthentication_guards_protected_pages
                    "/register.html" expired_session 0)).
    reflexivity.
  - apply (proj2 (checkAuthentication_guards_protected_pages
                    "/patients.html" (empty_storage 0) 0));
      reflexivity.
Defined.

(** The registration page, when it loads, leaves for the home page exactly
    when [isAuthenticated] reports the token valid, and has then sent and
    started nothing. Otherwise it stays, and what has been sent and started
    is what the check sent and started: opening the registration page with
    a token that has expired starts the refresh or the logout. *)
Theorem registerPage_load_leaves_when_logged_in (st : Storage) (now : Z) :
  let s := drive now isAuthenticated st in
  (step_next s = Finished (inr true) ->
     drive now registerPage_load st =
     {| step_store := st; step_events := [Navigated "index.html"]; step_spawned := [];
        step_next := Finished (inr tt) |}) /\
  (step_next s = Finished (inr false) ->
     drive now registerPage_load st = retag s (Finished (inr tt))).
Proof.
  cbv zeta. unfold registerPage_load. split; intros Hv.
  - destruct (isAuthenticated_valid_is_silent st now Hv) as [Hd _].
    rewrite drive_bind, Hd. reflexivity.
  - rewrite drive_bind, Hv. cbn [drive]. unfold prepend, retag.
    cbn [step_store step_events step_spawned step_next]. by rewrite !app_nil_r.
Qed.

Lemma registerPage_load_leaves_when_logged_in_witness :
  drive 0 registerPage_load (store_of [("access_token", token_expiring_2023)]) =
  {| step_store := store_of [("access_token", token_expiring_2023)];
     step_events := [Navigated "index.html"]; step_spawned := [];
     step_next := Finished (inr tt) |}.
Proof.
  apply (proj1 (registerPage_load_leaves_when_logged_in
                  (store_of [("access_token", token_expiring_2023)]) 0)).
  vm_compute. reflexivity.
Defined.

(** ** What the session operations keep of the store *)

Lemma stored_removeItem st key key' :
  stored key' (storage_removeItem st key) -> stored key' st.
Proof.
  unfold stored. destruct (decide (key = key')) as [->|Hne].
  - rewrite removeItem_same. by intros [? ?].
  - by rewrite removeItem_other.
Qed.

Lemma session_only_wiped q st : session_only q st -> session_only q (wiped st).
Proof.
  intros [Hq Hk]. split; [exact Hq|]. intros key Hs. apply Hk.
  unfold wiped in Hs. by do 3 apply stored_removeItem in Hs.
Qed.

Lemma setItem_quota st key v st' : storage_setItem st key v = inr st' -> quota st' = quota st.
Proof. unfold storage_setItem. case_match; [|done]. by intros [= <-]. Qed.

Lemma session_only_set q st key v st' :
  storage_setItem st key v = inr st' -> session_key key ->
  session_only q st -> session_only q st'.
Proof.
  intros Hset Hkey [Hq Hk]. split.
  - by rewrite (setItem_quota _ _ _ _ Hset).
  - intros key' Hs. destruct (decide (key = key')) as [<-|Hne]; [done|].
    apply Hk. unfold stored in *. by rewrite <- (setItem_other _ _ _ _ _ Hset Hne).
Qed.

Lemma session_ordered_wiped st : session_ordered (wiped st).
Proof.
  destruct (wiped_cleared st) as (Ha & Hr & Hu).
  split; intros [v Hv]; congruence.
Qed.

Lemma session_ordered_set st key v st' :
  storage_setItem st key v = inr st' ->
  (key = "user" -> stored "refresh_token" st) ->
  (key = "refresh_token" -> stored "access_token" st) ->
  session_ordered st -> session_ordered st'.
Proof.
  intros Hset Hu Hr [H1 H2].
  assert (Hkeep : forall key', stored key' st -> stored key' st').
  { intros key' Hs. destruct (decide (key = key')) as [<-|Hne].
    - eapply setItem_stored; eauto.
    - unfold stored. by rewrite (setItem_other _ _ _ _ _ Hset Hne). }
  assert (Hback : forall key', key <> key' -> stored key' st' -> stored key' st).
  { intros key' Hne Hs. unfold stored in *.
    by rewrite <- (setItem_other _ _ _ _ _ Hset Hne). }
  split; intros Hs.
  - destruct (decide (key = "user")) as [->|Hne]; [by apply Hkeep, Hu|].
    apply Hkeep, H1, Hback; done.
  - destruct (decide (key = "refresh_token")) as [->|Hne]; [by apply Hkeep, Hr|].
    apply Hkeep, H2, Hback; done.
Qed.

Ltac session_solve :=
  match goal with
  | H : session_only ?q ?s |- session_only ?q ?s => exact H
  | |- session_only _ (storage_removeItem (storage_removeItem
         (storage_removeItem ?st _) _) _) => apply (session_only_wiped _ st); session_solve
  | H : storage_setItem _ _ _ = inr ?s |- session_only _ ?s =>
      apply (session_only_set _ _ _ _ _ H); [unfold session_key; auto | session_solve]
  | H : session_ordered ?s |- session_ordered ?s => exact H
  | |- session_ordered (storage_removeItem (storage_removeItem
         (storage_removeItem ?st _) _) _) => apply (session_ordered_wiped st)
  | H : storage_setItem _ _ _ = inr ?s |- session_ordered ?s =>
      apply (session_ordered_set _ _ _ _ H);
      [ intros; first [discriminate | stored_solve]
      | intros; first [discriminate | stored_solve]
      | session_solve ]
  end.

Ltac keeps_session :=
  repeat (cbn [keeps bind try_catch resume negb] in *;
          match goal with
          | |- _ /\ _ => split
          | |- forall _, _ => intro
          | |- session_only _ _ => session_solve
          | |- session_ordered _ => session_solve
          | |- keeps _ ?t _ _ => let x := head_scrutinee t in destruct x eqn:?
          | |- match storage_setItem ?st ?k ?v with _ => _ end =>
              destruct (storage_setItem st k v) eqn:?
          end).

Lemma op_keeps_session_only q op st :
  session_only q st -> keeps (session_only q) (body_of op) st (session_only q).
Proof.
  intros HI. destruct op; open_sources.
  all: keeps_session.
Qed.

Lemma op_keeps_session_ordered op st :
  session_ordered st -> keeps session_ordered (body_of op) st session_ordered.
Proof.
  intros HI. destruct op; open_sources.
  all: keeps_session.
Qed.

(** Whatever session operations a page calls, and however their turns
    interleave, the store holds no key but [access_token], [refresh_token]
    and [user], and its quota is the one it started with. *)
Theorem session_operations_write_only_session_keys (q : nat) (c : Config) :
  reachable q c ->
  quota (cstore c) = q /\ forall key, stored key (cstore c) -> session_key key.
Proof.
  intros Hc.
  destruct (reachable_ok (session_only q) q) with (c := c) as [H _]; auto.
  - split; [reflexivity|]. intros k [v Hv]. discriminate.
  - intros op st. apply op_keeps_session_only.
Qed.

Lemma session_operations_write_only_session_keys_witness :
  quota (cstore logged_in) = 4096
  /\ forall key, stored key (cstore logged_in) -> session_key key.
Proof.
  apply (session_operations_write_only_session_keys 4096 logged_in).
  apply logged_in_reachable.
Defined.

(** In every configuration a page can reach from the empty store, a cached
    user is backed by a refresh token and a refresh token by an access
    token: [login] writes the three keys in this order, a refresh writes
    the access token alone, and nothing removes a key but [logout], which
    removes the three in one stretch. *)
Theorem session_keys_are_ordered (q : nat) (c : Config) :
  reachable q c ->
  (stored "user" (cstore c) -> stored "refresh_token" (cstore c))
  /\ (stored "refresh_token" (cstore c) -> stored "access_token" (cstore c)).
Proof.
  intros Hc.
  destruct (reachable_ok session_ordered q) with (c := c) as [H _]; auto.
  - split; intros [v Hv]; discriminate.
  - intros op st. apply op_keeps_session_ordered.
Qed.

Lemma session_keys_are_ordered_witness : stored "refresh_token" (cstore logged_in).
Proof.
  apply (session_keys_are_ordered 4096 logged_in).
  - apply logged_in_reachable.
  - exists (to_string (stringify (profile sample_session))). vm_compute. reflexivity.
Defined.

(** ** JSON: what is written reads back *)

Lemma append_assoc_str (a b c : string) : (a +:+ b) +:+ c = a +:+ (b +:+ c).
Proof. induction a as [|x a IH]; [reflexivity|]. change ((String x a +:+ b) +:+ c) with (String x ((a +:+ b) +:+ c)). by rewrite IH. Qed.

Lemma length_append_str (a b : string) :
  String.length (a +:+ b) = (String.length a + String.length b)%nat.
Proof. induction a as [|x a IH]; [reflexivity|]. change (String x a +:+ b) with (String x (a +:+ b)). cbn [String.length]. by rewrite IH. Qed.

Lemma parse_chars_quote_char c r :
  parse_chars (quote_char c +:+ r) = map_got (String c) (parse_chars r).
Proof. destruct c as [[] [] [] [] [] [] [] []]; reflexivity. Qed.

(** A string literal written by [JSON.stringify] reads back as the string. *)
Lemma parse_chars_quote_chars s rest :
  parse_chars (quote_chars s +:+ String dquote rest) = Got s rest.
Proof.
  induction s as [|c s IH].
  - reflexivity.
  - change (quote_chars (String c s)) with (quote_char c +:+ quote_chars s).
    by rewrite append_assoc_str, parse_chars_quote_char, IH.
Qed.

Lemma quote_json_append s rest :
  quote_json s +:+ rest = String dquote (quote_chars s +:+ String dquote rest).
Proof.
  unfold quote_json, quoted.
  change (String dquote (quote_chars s +:+ String dquote "") +:+ rest)
    with (String dquote ((quote_chars s +:+ String dquote "") +:+ rest)).
  by rewrite append_assoc_str.
Qed.

(** The text of a value that is written. *)
Lemma parse_value_carried f v t c rest :
  carried v -> JSON_stringify v = Some t -> c = ","%char \/ c = "}"%char ->
  parse_value (S f) (t +:+ String c rest) = Got v (String c rest).
Proof.
  intros Hv Ht Hc. destruct v as [| |b|x|s|l|ps]; try done.
  - injection Ht as <-. reflexivity.
  - injection Ht as <-. by destruct b.
  - destruct (Hv f c rest Hc) as [Hs Hp]. rewrite Hs in Ht. by injection Ht as <-.
  - injection Ht as <-. rewrite quote_json_append.
    change (parse_value (S f) (String dquote ?r)) with
      (match parse_chars r with
       | Got str r' => Got (VStr str) r'
       | Bad => Bad
       | Beyond => Beyond
       end).
    by rewrite parse_chars_quote_chars.
Qed.

Lemma parse_members_step f r acc :
  parse_members (S f) (String dquote r) acc =
  match parse_chars r with
  | Got key r1 =>
      match skip_ws r1 with
      | String ":" r2 =>
          match parse_value f r2 with
          | Got v r3 =>
              match skip_ws r3 with
              | String "," r4 => parse_members f r4 (set_prop key v acc)
              | String "}" r4 => Got (VObj (set_prop key v acc)) r4
              | _ => Bad
              end
          | other => other
          end
      | _ => Bad
      end
  | Bad => Bad
  | Beyond => Beyond
  end.
Proof. reflexivity. Qed.

Lemma parse_member f k v c rest acc :
  carried v -> v <> VUndefined -> c = ","%char \/ c = "}"%char ->
  parse_members (S (S f)) (member_text (k, v) +:+ String c rest) acc =
  if Ascii.eqb c ","
  then parse_members (S f) rest (set_prop k v acc)
  else Got (VObj (set_prop k v acc)) rest.
Proof.
  intros Hv Hd Hc. unfold member_text. cbn [fst snd].
  destruct (JSON_stringify v) as [t|] eqn:Ht;
    [|destruct v as [| |b|x|s|l|ps]; try done; by destruct x].
  cbn [default from_option id].
  rewrite !append_assoc_str, quote_json_append.
  rewrite parse_members_step, parse_chars_quote_chars.
  change (":" +:+ t +:+ String c rest) with (String ":" (t +:+ String c rest)).
  change (skip_ws (String ":" (t +:+ String c rest))) with (String ":" (t +:+ String c rest)).
  cbv beta iota.
  rewrite (parse_value_carried f v t c rest Hv Ht Hc).
  destruct Hc as [-> | ->]; reflexivity.
Qed.

(** The properties that are written, in the order and with the texts
    [JSON.stringify] gives them. *)
Lemma written_members_defined ps :
  Forall (fun kv => carried kv.2) ps ->
  written_members ps = map member_text (List.filter defined ps).
Proof.
  induction 1 as [|[k v] ps Hv _ IH]; [reflexivity|].
  cbn [written_members List.filter]. unfold defined at 1. cbn [fst snd] in *.
  destruct v as [| |b|x|s|l|qs]; try done; rewrite IH; try (cbn; reflexivity).
  destruct (Hv 0%nat ","%char EmptyString) as [Hs _]; [by left|].
  rewrite Hs. cbn [map]. f_equal. unfold member_text. cbn [fst snd]. by rewrite Hs.
Qed.

Lemma join_cons sep s t l : join sep (s :: t :: l) = s +:+ sep +:+ join sep (t :: l).
Proof. reflexivity. Qed.

Lemma parse_members_written ps :
  forall f acc rest,
    Forall (fun kv => carried kv.2 /\ kv.2 <> VUndefined) ps -> ps <> [] ->
    (length ps < f)%nat ->
    parse_members f (join "," (map member_text ps) +:+ String "}" rest) acc =
    Got (VObj (collected ps acc)) rest.
Proof.
  induction ps as [|[k v] ps IH]; intros f acc rest Hall Hne Hf; [done|].
  apply Forall_cons in Hall as [[Hv Hd] Hall]. cbn [fst snd] in *.
  destruct f as [|[|f]]; cbn [length] in Hf; try lia.
  destruct ps as [|kv ps].
  - cbn [map join]. rewrite parse_member by auto. reflexivity.
  - cbn [map]. rewrite join_cons, !append_assoc_str.
    change ("," +:+ ?x) with (String ","%char x).
    rewrite parse_member by auto. cbn [Ascii.eqb Bool.eqb].
    change (member_text kv :: map member_text ps) with (map member_text (kv :: ps)).
    rewrite IH; [reflexivity| done | done | cbn [length] in *; lia].
Qed.

Lemma JSON_stringify_object ps :
  JSON_stringify (VObj ps) = Some ("{" +:+ join "," (written_members ps) +:+ "}").
Proof.
  reflexivity.
Qed.

Lemma length_join_members ps :
  (length ps <= String.length (join "," (map member_text ps)))%nat.
Proof.
  induction ps as [|kv [|kv' ps] IH].
  - cbn. lia.
  - cbn [map join length]. unfold member_text. rewrite quote_json_append.
    cbn [String.length]. lia.
  - cbn [map]. rewrite join_cons, !length_append_str. cbn [map length] in *.
    unfold member_text at 1. rewrite quote_json_append. cbn [String.length]. lia.
Qed.

(** A flat object of carried values, written by [JSON.stringify], is read
    by [JSON.parse] as the object of its defined properties. *)
Lemma JSON_parse_stringify_flat ps :
  Forall (fun kv => carried kv.2) ps ->
  JSON_parse (to_string (stringify (VObj ps)))
  = Got (VObj (collected (List.filter defined ps) [])) EmptyString.
Proof.
  intros Hall. unfold stringify. rewrite JSON_stringify_object, to_string_str.
  rewrite (written_members_defined ps Hall).
  assert (Hsub : Forall (fun kv => carried kv.2 /\ kv.2 <> VUndefined)
                   (List.filter defined ps)).
  { apply List.Forall_forall. intros [k v] Hin. apply List.filter_In in Hin as [Hin Hd].
    split; [exact (proj1 (List.Forall_forall _ _) Hall _ Hin)|].
    cbn. intros ->. discriminate. }
  set (qs := List.filter defined ps) in *. clearbody qs. clear Hall ps.
  unfold JSON_parse.
  set (text := "{" +:+ join "," (map member_text qs) +:+ "}").
  assert (Hlen : (length qs < 2 * String.length text + 1)%nat).
  { unfold text. change ("{" +:+ ?x) with (String "{"%char x).
    cbn [String.length]. rewrite length_append_str.
    pose proof (length_join_members qs). lia. }
  replace (2 * String.length text + 2)%nat with (S (2 * String.length text + 1)) by lia.
  unfold text in *. clear text.
  change ("{" +:+ ?x) with (String "{"%char x).
  destruct qs as [|[k v] qs].
  - reflexivity.
  - set (F := (2 * _ + 1)%nat) in *.
    change (parse_value (S F) (String "{"%char ?r)) with
      (match skip_ws r with
       | String "}" r' => Got (VObj []) r'
       | _ => parse_members F r []
       end).
    assert (Hq : exists r, join "," (map member_text ((k, v) :: qs)) +:+ "}"
                           = String dquote r).
    { destruct qs; cbn [map join]; unfold member_text at 1;
        rewrite ?append_assoc_str, quote_json_append; eauto. }
    destruct Hq as [r Hr]. rewrite Hr.
    change (skip_ws (String dquote r)) with (String dquote r). cbv beta iota.
    rewrite <- Hr. rewrite (parse_members_written ((k, v) :: qs) F [] EmptyString); auto.
Qed.

Lemma lookup_prop_absent key ps : ~ In key (map fst ps) -> lookup_prop key ps = None.
Proof.
  induction ps as [|[k v] ps IH]; [done|]. cbn [map fst In lookup_prop]. intros Hn.
  destruct (String.eqb k key) eqn:E.
  - apply String.eqb_eq in E. tauto.
  - apply IH. tauto.
Qed.

Lemma lookup_collected key ps :
  forall acc, List.NoDup (map fst ps) ->
    lookup_prop key (collected ps acc) =
    match lookup_prop key ps with
    | Some v => Some v
    | None => lookup_prop key acc
    end.
Proof.
  induction ps as [|[k v] ps IH]; intros acc Hnd; [reflexivity|].
  apply List.NoDup_cons_iff in Hnd as [Hk Hnd]. cbn [map fst] in Hk.
  change (collected ((k, v) :: ps) acc) with (collected ps (set_prop k v acc)).
  rewrite IH by done. cbn [lookup_prop].
  destruct (String.eqb k key) eqn:E.
  - apply String.eqb_eq in E as ->.
    by rewrite (lookup_prop_absent key ps Hk), lookup_set_prop_eq.
  - destruct (lookup_prop key ps); [done|].
    apply lookup_set_prop_ne. intros ->. by rewrite String.eqb_refl in E.
Qed.

Lemma NoDup_filter_keys ps :
  List.NoDup (map fst ps) -> List.NoDup (map fst (List.filter defined ps)).
Proof.
  induction ps as [|[k v] ps IH]; [done|]. cbn [map fst List.filter].
  intros Hnd. apply List.NoDup_cons_iff in Hnd as [Hk Hnd].
  destruct (defined (k, v)); [|auto]. cbn [map fst]. apply List.NoDup_cons; [|auto].
  intros Hin. apply Hk. apply in_map_iff in Hin as ([k' v'] & <- & Hin).
  apply List.filter_In in Hin as [Hin _]. apply in_map_iff. by exists (k', v').
Qed.

Lemma lookup_filter_defined key ps :
  List.NoDup (map fst ps) ->
  default VUndefined (lookup_prop key (List.filter defined ps))
  = default VUndefined (lookup_prop key ps).
Proof.
  induction ps as [|[k v] ps IH]; [done|]. intros Hnd.
  apply List.NoDup_cons_iff in Hnd as [Hk Hnd]. cbn [map fst] in Hk.
  cbn [List.filter lookup_prop].
  destruct (defined (k, v)) eqn:Hd; cbn [lookup_prop];
    destruct (String.eqb k key) eqn:E; auto.
  apply String.eqb_eq in E as ->.
  rewrite lookup_prop_absent.
  - unfold defined in Hd. cbn [snd] in Hd. by destruct v.
  - intros Hin. apply Hk. apply in_map_iff in Hin as ([k' v'] & <- & Hin).
    apply List.filter_In in Hin as [Hin _]. apply in_map_iff. by exists (k', v').
Qed.

(** What [JSON.parse] gives for a flat object written by [JSON.stringify]
    has the properties of the object. *)
Lemma JSON_round_trip_flat ps :
  List.NoDup (map fst ps) -> Forall (fun kv => carried kv.2) ps ->
  exists user,
    JSON_parse (to_string (stringify (VObj ps))) = Got (VObj user) EmptyString
    /\ forall key, field (VObj user) key = field (VObj ps) key.
Proof.
  intros Hnd Hall. eexists. split; [by apply JSON_parse_stringify_flat|].
  intros key. unfold field. cbn [get_prop].
  rewrite lookup_collected by by apply NoDup_filter_keys.
  destruct (lookup_prop key (List.filter defined ps)) eqn:E.
  - by rewrite <- (lookup_filter_defined key ps Hnd), E.
  - by rewrite <- (lookup_filter_defined key ps Hnd), E.
Qed.

(** ** From [login] to the cached user *)

Lemma profile_keys data : List.NoDup (map fst [("id", field data "user_id");
  ("username", field data "username"); ("firstName", field data "first_name");
  ("lastName", field data "last_name"); ("role", field data "role")]).
Proof.
  cbn [map fst].
  repeat (apply List.NoDup_cons; [cbn [In]; intuition discriminate|]).
  apply List.NoDup_nil.
Qed.

Lemma getUser_cached st text user rest :
  storage_getItem st "user" = Some text -> text <> "" ->
  JSON_parse text = Got user rest -> returns getUser st user.
Proof.
  intros Hget Hne Hparse now. unfold getUser, parse.
  destruct text as [|c text]; [done|]. drive_go. reflexivity.
Qed.

(** After a login that succeeded, the cached user reads as the server sent
    it: [getUser] gives an object whose [id], [username], [firstName],
    [lastName] and [role] are the [user_id], [username], [first_name],
    [last_name] and [role] of the response, [hasRole(role)] is [true]
    exactly for the role of the response, and [updateUserUI] projects that
    role on the gated elements. The five values are ones JSON carries:
    [null], booleans, strings, numbers whose numeral reads back, and
    [undefined] for a property the response lacks. *)
Theorem login_then_cached_user_is_what_the_server_sent
    (username password : string) (st : Storage) (now : Z)
    (net : nat -> FetchOutcome) (fuel : nat) (r : Response) (data : Value) :
  (4 <= fuel)%nat ->
  net 0 = Responded r -> usable r = true -> body r = Some data ->
  carried (field data "user_id") -> carried (field data "username") ->
  carried (field data "first_name") -> carried (field data "last_name") ->
  carried (field data "role") ->
  exists f,
    run fuel now net (login username password) st = Some f /\
    (result f = Resolved (VObj [("success", VBool true); ("user", profile data)]) ->
     exists user,
       returns getUser (final_store f) user
       /\ (forall key, field user key = field (profile data) key)
       /\ (forall role,
             returns (hasRole role) (final_store f)
               (VBool (strict_eq_str (field data "role") role)))
       /\ (forall page, exists page',
             returns (updateUserUI page) (final_store f) page'
             /\ gated page' = map (project (field data "role")) (gated page))).
Proof.
  intros Hfuel Hnet Huse Hbody H1 H2 H3 H4 H5.
  destruct (login_run username password st now net fuel Hfuel) as (f & Hrun & Hf).
  exists f. split; [exact Hrun|]. intros Hres.
  rewrite Hnet, Hbody in Hf. unfold usable in Huse. rewrite Hbody in Huse.
  apply andb_true_iff in Huse as [Hok Hread]. rewrite Hread, Hok in Hf.
  destruct (storage_setItem st "access_token" _) as [e|st1];
    [destruct Hf as [_ Hf]; rewrite Hf in Hres; discriminate|].
  destruct (storage_setItem st1 "refresh_token" _) as [e|st2];
    [destruct Hf as [_ Hf]; rewrite Hf in Hres; discriminate|].
  destruct (storage_setItem st2 "user" _) as [e|st3] eqn:Hset;
    [destruct Hf as [_ Hf]; rewrite Hf in Hres; discriminate|].
  destruct Hf as [-> _].
  assert (Hall : Forall (fun kv : string * Value => carried kv.2)
                   [("id", field data "user_id"); ("username", field data "username");
                    ("firstName", field data "first_name");
                    ("lastName", field data "last_name"); ("role", field data "role")])
    by (repeat (constructor; [assumption|]); constructor).
  destruct (JSON_round_trip_flat _ (profile_keys data) Hall) as (user & Hparse & Hfields).
  fold (profile data) in Hparse, Hfields.
  assert (Hget : storage_getItem st3 "user" = Some (to_string (stringify (profile data)))).
  { unfold storage_getItem. rewrite (proj1 (setItem_items _ _ _ _ Hset)). apply lookup_insert_eq. }
  assert (Hne : to_string (stringify (profile data)) <> "") by (intros E; by rewrite E in Hparse).
  pose proof (getUser_cached _ _ _ _ Hget Hne Hparse) as Huser.
  assert (Hrole : get_prop (VObj user) "role" = inr (field data "role")).
  { rewrite (readable_get_prop (VObj user) "role") by done. by rewrite Hfields. }
  exists (VObj user). split; [exact Huser|]. split; [exact Hfields|]. split.
  - intros role now'. unfold hasRole. rewrite (drive_bind_returns _ _ _ _ _ Huser).
    cbn [truthy]. unfold prop. rewrite Hrole. reflexivity.
  - intros page. eexists. split.
    + intros now'. unfold updateUserUI. rewrite (drive_bind_returns _ _ _ _ _ Huser).
      cbn [truthy negb]. unfold prop.
      rewrite (readable_get_prop (VObj user) "firstName") by done.
      rewrite (readable_get_prop (VObj user) "lastName") by done.
      rewrite Hrole. reflexivity.
    + reflexivity.
Qed.

Lemma seven_reads_back : reads_back_in_json (num_of_Z 7).
Proof. intros f c rest [-> | ->]; split; reflexivity. Qed.

Lemma login_then_cached_user_is_what_the_server_sent_witness :
  exists f,
    run 4 0 (always sample_session) (login "alice" "secret") (empty_storage 4096) = Some f
    /\ (result f = Resolved (VObj [("success", VBool true);
                                   ("user", profile sample_session)]) ->
        exists user,
          returns getUser (final_store f) user
          /\ (forall key, field user key = field (profile sample_session) key)
          /\ (forall role,
                returns (hasRole role) (final_store f)
                  (VBool (strict_eq_str (field sample_session "role") role)))
          /\ (forall page, exists page',
                returns (updateUserUI page) (final_store f) page'
                /\ gated page' = map (project (field sample_session "role"))
                                   (gated page))).
Proof.
  apply (login_then_cached_user_is_what_the_server_sent "alice" "secret"
           (empty_storage 4096) 0 (always sample_session) 4
           {| status := 200; body := Some sample_session |} sample_session);
    first [lia | reflexivity | exact I | exact seven_reads_back].
Defined.

(** ** The cached user, read *)

(** [getUser] gives [null] when no user is cached, and what [JSON.parse]
    reads otherwise. It does not catch: a cached text that is not JSON makes
    [getUser] throw a [SyntaxError], and with it [hasRole] and
    [updateUserUI], which change nothing of the page. *)
Theorem cached_user_that_is_not_JSON_throws
    (st : Storage) (text : string) (role : string) (page : Page) (now : Z) :
  storage_getItem st "user" = Some text -> text <> "" -> JSON_parse text = Bad ->
  let thrown {A : Type} : Step A :=
    {| step_store := st; step_events := []; step_spawned := [];
       step_next := Finished (inl SyntaxError) |} in
  drive now getUser st = thrown
  /\ drive now (hasRole role) st = thrown
  /\ drive now (updateUserUI page) st = thrown.
Proof.
  intros Hget Hne Hbad. cbv zeta.
  assert (Hu : drive now getUser st =
               {| step_store := st; step_events := []; step_spawned := [];
                  step_next := Finished (inl SyntaxError) |}).
  { unfold getUser, parse. destruct text as [|c text]; [done|]. drive_go. reflexivity. }
  split; [exact Hu|].
  split; [unfold hasRole | unfold updateUserUI]; rewrite drive_bind, Hu; reflexivity.
Qed.

Lemma cached_user_that_is_not_JSON_throws_witness :
  step_next (drive 0 (hasRole "admin") (store_of [("user", "undefined")]))
  = Finished (inl SyntaxError).
Proof.
  destruct (cached_user_that_is_not_JSON_throws (store_of [("user", "undefined")])
              "undefined" "admin" admin_page 0) as (_ & H & _);
    [reflexivity | discriminate | reflexivity |].
  by rewrite H.
Defined.

(** [hasRole(role)] gives [null], not [false], when no user is cached. With
    a cached user it gives [true] exactly when the user's [role] is the
    string [role]: the comparison is strict, so a role that is a number or
    differs in case gives [false]. A cached value that is falsy ([0],
    [false], [null], the empty string) is given back as it is. *)
Theorem hasRole_compares_strictly (st : Storage) (role : string) :
  (holds "user" st = false -> returns (hasRole role) st VNull) /\
  (forall text user rest,
     storage_getItem st "user" = Some text -> text <> "" ->
     JSON_parse text = Got user rest ->
     returns (hasRole role) st
       (if truthy user then VBool (strict_eq_str (field user "role") role) else user)
     /\ (truthy user = true ->
         (strict_eq_str (field user "role") role = true
          <-> field user "role" = VStr role))).
Proof.
  split.
  - intros Hh now. unfold holds in Hh. unfold hasRole, getUser. drive_go. reflexivity.
  - intros text user rest Hget Hne Hparse. split.
    + intros now. unfold hasRole.
      rewrite (drive_bind_returns _ _ _ _ _ (getUser_cached _ _ _ _ Hget Hne Hparse)).
      destruct (truthy user) eqn:Ht; [|reflexivity].
      unfold prop. rewrite (readable_get_prop user "role") by by destruct user.
      reflexivity.
    + intros _. unfold strict_eq_str. destruct (field user "role"); try done.
      split.
      * intros E. apply String.eqb_eq in E. by subst.
      * intros [= ->]. apply String.eqb_refl.
Qed.

(** ** [authFetch] with the options left out *)

(** Called with the URL alone, as the page loaders call it, [authFetch]
    sends the request with an options object that holds the
    [Authorization] header and nothing else; with no access token stored the
    options are the empty object. Called with [null], for which the default
    does not apply, it sends [null] when no token is stored and throws a
    [TypeError] before sending anything when one is. *)
Theorem authFetch_options_left_out (url : string) (st : Storage) (now : Z) :
  step_events (drive now (authFetch url VUndefined) st)
  = [Requested url
       (match storage_getItem st "access_token" with
        | Some (String c token) =>
            VObj [("headers",
                   VObj [("Authorization", VStr ("Bearer " +:+ String c token))])]
        | _ => VObj []
        end)]
  /\ step_store (drive now (authFetch url VUndefined) st) = st
  /\ (holds "access_token" st = true ->
      drive now (authFetch url VNull) st =
      {| step_store := st; step_events := []; step_spawned := [];
         step_next := Finished (inl TypeError) |})
  /\ (holds "access_token" st = false ->
      step_events (drive now (authFetch url VNull) st) = [Requested url VNull]).
Proof.
  unfold holds. open_sources. cbn [or_empty].
  destruct (storage_getItem st "access_token") as [[|c token]|] eqn:Hget;
    cbn [drive bind item truthy negb get_prop lookup_prop default from_option id
         step_events step_store]; rewrite ?Hget;
    cbn [drive bind item truthy negb get_prop lookup_prop default from_option id
         step_events step_store];
    repeat split; try reflexivity; intros; discriminate.
Qed.

(** ** The patient registration form *)

(** A submission that lacks a required field sends nothing and leaves the
    store and the entries of the form as they are: the handler shows one
    alert naming the first missing field among first name, last name and
    date of birth, and the button is as it was before. Only the first
    underscore of a field's name is replaced in the message: the date of
    birth is named [date of_birth]. *)
Theorem handlePatientFormSubmit_requires_three_fields
    (platform_message : Exn -> string) (page : PatientPage.t) (name : string)
    (st : Storage) (now : Z) :
  first_missing (PatientPage.entries page) = Some name ->
  drive now (PatientPage.handlePatientFormSubmit platform_message page) st =
  {| step_store := st;
     step_events := [Alerted "danger" (name +:+ " is required")];
     step_spawned := [];
     step_next := Finished (inr (restored page (PatientPage.entries page))) |}.
Proof.
  unfold first_missing, restored, PatientPage.handlePatientFormSubmit,
    PatientPage.requiredFields, PatientPage.validate, PatientPage.showAlert,
    PatientPage.message_of, prop, lift.
  intros H.
  destruct (truthy (PatientPage.get (PatientPage.entries page) "firstName")) eqn:H1;
    [destruct (truthy (PatientPage.get (PatientPage.entries page) "lastName")) eqn:H2;
     [destruct (truthy (PatientPage.get (PatientPage.entries page) "dateOfBirth")) eqn:H3|]|];
    cbn [negb] in H; try discriminate; injection H as <-.
  all: cbn [get_prop lookup_prop default from_option id String.eqb Ascii.eqb Bool.eqb
            bind try_catch negb]; rewrite ?H1, ?H2, ?H3;
    cbn [bind try_catch negb drive step_store step_events step_spawned step_next];
    reflexivity.
Qed.

Lemma handlePatientFormSubmit_requires_three_fields_witness :
  step_events (drive 0 (PatientPage.handlePatientFormSubmit sample_messages
                          undated_patient_page) (empty_storage 0))
  = [Alerted "danger" "date of_birth is required"].
Proof.
  rewrite (handlePatientFormSubmit_requires_three_fields sample_messages
             undated_patient_page "date of_birth" (empty_storage 0) 0); reflexivity.
Defined.

Lemma first_missing_none formData :
  first_missing formData = None ->
  truthy (PatientPage.get formData "firstName") = true
  /\ truthy (PatientPage.get formData "lastName") = true
  /\ truthy (PatientPage.get formData "dateOfBirth") = true.
Proof.
  unfold first_missing.
  destruct (truthy (PatientPage.get formData "firstName")); [|discriminate].
  destruct (truthy (PatientPage.get formData "lastName")); [|discriminate].
  destruct (truthy (PatientPage.get formData "dateOfBirth")); [|discriminate].
  auto.
Qed.



(** Whatever the server answers, also when the first response is a 401 and
    the token is refreshed, or the refresh fails and the session is logged
    out, a submission with the three required fields completes: its first
    request is the patient data sent with the options [withAuth] builds, it
    shows exactly one alert, and the button is as it was before. The form
    is reset exactly when the alert is the success alert. *)
Theorem handlePatientFormSubmit_always_restores_button
    (platform_message : Exn -> string) (page : PatientPage.t)
    (st : Storage) (now : Z) (net : nat -> FetchOutcome) (fuel : nat) :
  first_missing (PatientPage.entries page) = None ->
  (9 <= fuel)%nat ->
  exists f formData events kind message,
    run fuel now net (PatientPage.handlePatientFormSubmit platform_message page) st
    = Some f
    /\ result f = Resolved (restored page formData)
    /\ trace f = Requested patients_url
                   (authOptions st (patient_options (PatientPage.entries page)))
                 :: events
    /\ alerts (trace f) = [Alerted kind message]
    /\ ((kind = "success" /\ formData = PatientPage.reset (PatientPage.entries page))
        \/ (kind = "danger" /\ formData = PatientPage.entries page)).
Proof.
  intros Hm Hfuel. destruct (first_missing_none _ Hm) as (H1 & H2 & H3).
  destruct fuel as [|[|[|[|[|[|[|[|[|fuel]]]]]]]]]; try lia.
  unfold run, PatientPage.handlePatientFormSubmit, PatientPage.requiredFields.
  cbn [PatientPage.validate prop lift bind try_catch
       get_prop lookup_prop default from_option id String.eqb Ascii.eqb Bool.eqb].
  rewrite H1, H2, H3. cbn [negb bind try_catch].
  fold (patientData_of (PatientPage.entries page)).
  unfold patient_options, restored, patients_url, authOptions, with_bearer, holds, field,
    PatientPage.showAlert, alerts.
  generalize (stringify (patientData_of (PatientPage.entries page))). intros payload.
  clear Hm H1 H2 H3.
  open_sources.
  run_known.
  all: eexists _, _, _, _, _; split; [reflexivity|]; split; [reflexivity|];
    split; [reflexivity|]; split; [reflexivity|];
    first [left; split; reflexivity | right; split; reflexivity].
Qed.

Lemma handlePatientFormSubmit_always_restores_button_witness :
  exists f formData kind message,
    run 9 0 refreshing
      (PatientPage.handlePatientFormSubmit sample_messages sample_patient_page)
      expired_session = Some f
    /\ result f = Resolved (restored sample_patient_page formData)
    /\ alerts (trace f) = [Alerted kind message].
Proof.
  destruct (handlePatientFormSubmit_always_restores_button sample_messages
              sample_patient_page expired_session 0 refreshing 9)
    as (f & formData & events & kind & message & Hrun & Hres & _ & Hal & _);
    [reflexivity | lia |].
  exists f, formData, kind, message. auto.
Defined.

(** ** Search and filter of the patient list *)

Lemma str_contains_prefix sub s rest : strip_prefix sub s = Some rest -> str_contains sub s = true.
Proof. intros H. destruct s; cbn [str_contains]; by rewrite H. Qed.

Lemma strip_prefix_refl s : strip_prefix s s = Some EmptyString.
Proof. induction s as [|c s IH]; [done|]. cbn. by rewrite Ascii.eqb_refl. Qed.

Lemma str_contains_refl s : str_contains s s = true.
Proof. eapply str_contains_prefix, strip_prefix_refl. Qed.

Lemma str_contains_empty s : str_contains EmptyString s = true.
Proof. by destruct s. Qed.

Lemma map_imap_same {A B : Type} (F : A -> B) (l : list A) :
  forall G : nat -> A -> A, (forall n x, F (G n x) = F x) -> map F (imap G l) = map F l.
Proof.
  induction l as [|x l IH]; intros G HG; [done|]. cbn. rewrite HG, IH; [done|].
  intros n y. apply HG.
Qed.

Lemma imap_map_same {A B : Type} (S : A -> A) (l : list A) :
  forall G : nat -> A -> B, (forall n x, G n (S x) = G n x) -> imap G (map S l) = imap G l.
Proof.
  induction l as [|x l IH]; intros G HG; [done|]. cbn. rewrite HG, IH; [done|].
  intros n y. apply HG.
Qed.

(** The search box and the filter do not combine: each handler sets the
    display of every item from the texts alone, or from the positions
    alone, so whichever ran last decides, and what the other had hidden or
    shown is forgotten. Both keep the items, their order and their texts.
    An empty search term shows every item, and so does the empty filter;
    a search for the heading of an item, in any letter case, shows that
    item. *)
Theorem search_and_filter_do_not_combine
    (value filterValue : string) (patientItems : list PatientsList.item) :
  PatientsList.searchPatient_input value
    (PatientsList.filterPatients_change filterValue patientItems)
  = PatientsList.searchPatient_input value patientItems
  /\ PatientsList.filterPatients_change filterValue
       (PatientsList.searchPatient_input value patientItems)
     = PatientsList.filterPatients_change filterValue patientItems
  /\ PatientsList.searchPatient_input "" patientItems
     = map PatientsList.show patientItems
  /\ PatientsList.filterPatients_change "" patientItems
     = map PatientsList.show patientItems
  /\ map (fun i => (PatientsList.h5 i, PatientsList.p i))
         (PatientsList.searchPatient_input value patientItems)
     = map (fun i => (PatientsList.h5 i, PatientsList.p i)) patientItems
  /\ map (fun i => (PatientsList.h5 i, PatientsList.p i))
         (PatientsList.filterPatients_change filterValue patientItems)
     = map (fun i => (PatientsList.h5 i, PatientsList.p i)) patientItems
  /\ (forall i, In i patientItems ->
        toLowerCase value = toLowerCase (PatientsList.h5 i) ->
        In (PatientsList.show i) (PatientsList.searchPatient_input value patientItems)).
Proof.
  unfold PatientsList.searchPatient_input, PatientsList.filterPatients_change.
  split; [|split; [|split; [|split; [|split; [|split]]]]].
  - destruct (String.eqb filterValue "").
    + rewrite List.map_map. apply List.map_ext. by intros [].
    + apply map_imap_same. intros n x.
      by destruct (String.eqb filterValue "high-risk" && _ || _ || _).
  - destruct (String.eqb filterValue "").
    + rewrite List.map_map. apply List.map_ext. intros x. by destruct (_ || _).
    + apply imap_map_same. intros n x.
      by destruct (str_contains _ _ || _).
  - apply List.map_ext. intros x. cbn [toLowerCase str_map].
    by rewrite str_contains_empty.
  - reflexivity.
  - rewrite List.map_map. apply List.map_ext. intros x. by destruct (_ || _).
  - destruct (String.eqb filterValue "").
    + rewrite List.map_map. apply List.map_ext. by intros [].
    + rewrite <- (List.map_id patientItems) at 2. rewrite List.map_map.
      apply map_imap_same. intros n x.
      by destruct (String.eqb filterValue "high-risk" && _ || _ || _).
  - intros i Hin Heq. apply in_map_iff. exists i. split; [|done].
    by rewrite Heq, str_contains_refl.
Qed.

(** ** What the server is sent *)

Lemma get_is_entry formData name : is_entry (PatientPage.get formData name).
Proof.
  induction formData as [|[n v] formData IH]; [exact I|]. cbn [PatientPage.get].
  by destruct (String.eqb n name).
Qed.

Lemma is_entry_carried v : is_entry v -> carried v.
Proof. by destruct v. Qed.

Lemma is_entry_defined k v : is_entry v -> defined (k, v) = true.
Proof. by destruct v. Qed.

(** The bodies of the requests are JSON texts that read back as the data
    they were written from, whatever characters the user typed: quotes,
    backslashes and control characters are escaped. [login] sends one
    request, whose body reads as the user name and the password; the body
    [register] is sent by the registration form reads as its five fields;
    and the body of a patient's registration reads as the fourteen fields
    of the form, a field the form lacks being [null]. *)
Theorem request_bodies_read_back_as_typed :
  (forall username password st now,
     step_events (drive now (login username password) st)
     = [login_request username password]
     /\ step_store (drive now (login username password) st) = st
     /\ decoded (stringify (VObj [("username", VStr username);
                                  ("password", VStr password)]))
        = Got (VObj [("username", VStr username); ("password", VStr password)])
            EmptyString)
  /\ (forall form,
        decoded (stringify (registration_of form))
        = Got (registration_of form) EmptyString)
  /\ (forall formData,
        decoded (stringify (patientData_of formData))
        = Got (patientData_of formData) EmptyString).
Proof.
  unfold decoded. split; [|split].
  - intros username password st now. split; [reflexivity|]. split; [reflexivity|].
    rewrite JSON_parse_stringify_flat; [reflexivity|].
    repeat (constructor; [exact I|]). constructor.
  - intros form. unfold registration_of.
    rewrite JSON_parse_stringify_flat; [reflexivity|].
    repeat (constructor; [exact I|]). constructor.
  - intros formData. unfold patientData_of.
    rewrite JSON_parse_stringify_flat.
    + cbn [List.filter]. rewrite !is_entry_defined by apply get_is_entry. reflexivity.
    + repeat (constructor; [apply is_entry_carried, get_is_entry|]). constructor.
Qed.

(** ** [refreshAccessToken] without a refresh token *)

(** With no refresh token stored, or an empty one, [refreshAccessToken]
    gives [false] at once: nothing is sent and nothing is removed, an
    access token that is stored stays. *)
Theorem refreshAccessToken_without_refresh_token (st : Storage) :
  holds "refresh_token" st = false -> returns refreshAccessToken st false.
Proof.
  intros Hh now. unfold holds in Hh. open_sources. drive_go. reflexivity.
Qed.

Lemma refreshAccessToken_without_refresh_token_witness :
  returns refreshAccessToken (store_of [("access_token", token_expiring_2023)]) false.
Proof.
  apply (refreshAccessToken_without_refresh_token
           (store_of [("access_token", token_expiring_2023)])).
  reflexivity.
Defined.

(** ** The table of high-risk pregnancies *)









